(** * Session/lifecycle engine of the code-execution broker

    A shallow embedding of
    [platform_backend_python/app/development_env/web_platform_executor.py]:
    the prewarmed-container pool, the session registry, the three request
    handlers ([execute_code], [get_result], [cleanup_session]), the body of the
    background sweeper ([cleanup_expired_sessions]) and [shutdown_cleanup].

    The module-level globals [sessions] and [prewarmed_pool] are fields of an
    explicit [world]; the Docker daemon and the file system are part of the
    same [world].  Everything the program cannot decide itself -- whether an
    external call raises, which status and logs the daemon reports, how long a
    call blocks, which uuid is drawn -- is read from an [environment] indexed
    by the number of external calls made so far, so every handler is a total,
    executable function of the environment and the world.

    Not modelled: the [print] calls, the Flask routing and the arguments
    [detach=True] and [auto_remove=False] that every [containers.run] of the
    program passes.  The [sessions] dict is a finite map; the order in which
    the sweeper walks its snapshot is the order of [map_to_list]. *)

From Stdlib Require Import Ascii String QArith Lqa.
From stdpp Require Import gmap strings list fin_maps.

Open Scope string_scope.
Open Scope list_scope.

(** ** Data *)

(** Identity of a container.  The daemon hands out a fresh one for every
    container it creates; the Python [Container] object wrapping it is shared
    by reference, so the identity also stands for the object. *)
Definition cid := nat.

(** [RESOURCE_LIMITS]. *)
Record limits := { cpu_quota : Z; cpu_period : Z; mem_limit : string }.

Definition RESOURCE_LIMITS : limits :=
  {| cpu_quota := 50000%Z; cpu_period := 100000%Z; mem_limit := "128m" |}.

Definition CONTAINER_IMAGE : string := "python:3.9-slim".
Definition TIMEOUT_SECONDS : Q := 10.
Definition PREWARMED_POOL_SIZE : nat := 1.
(** The argument of [time.sleep] at the end of a sweeper iteration. *)
Definition SWEEP_SLEEP : Q := 5.

(** One entry of the [volumes] argument: host path, bind path, mode. *)
Record volume := { host_path : string; bind : string; mode : string }.

(** A tar stream as built by [_make_tar]: the members with their contents. *)
Definition tar := list (string * string).

(** What the daemon knows about a container: the arguments it was started
    with, the archives put into it and the commands exec'd in it, in order. *)
Record dcontainer := {
  image : string;
  command : list string;
  network_disabled : bool;
  tty : bool;
  volumes : list volume;
  working_dir : option string;
  res_limits : limits;
  archives : list (string * tar);
  execs : list (string * bool);
  stopped : bool
}.

(** A value of the [sessions] dict. *)
Record session := { container : cid; start_time : Q }.

Record world := {
  sessions : gmap string session;
  prewarmed_pool : list cid;
  (** cached [status] attribute of the Python [Container] objects *)
  attrs : gmap cid string;
  (** containers known to the Docker daemon *)
  daemon : gmap cid dcontainer;
  next_cid : cid;
  (** regular files below [/tmp] *)
  files : gmap string string;
  (** [time.time()] *)
  clock : Q;
  (** number of external calls made so far *)
  events : nat
}.

Definition initial_world : world :=
  {| sessions := ∅; prewarmed_pool := []; attrs := ∅; daemon := ∅;
     next_cid := 0; files := ∅; clock := 0; events := 0 |}.

(** ** Environment *)

(** The answer of the outside world to one external call. *)
Record response := {
  r_error : option string;   (** [Some e]: the call raises, [str(e) = e] *)
  r_status : string;         (** container status reported by the daemon *)
  r_logs : string;           (** decoded container logs *)
  r_uuid : string;           (** value of [str(uuid.uuid4())] *)
  r_elapsed : Q              (** wall-clock time the call takes *)
}.

Definition environment := nat -> response.

(** ** State and exception monad *)

Inductive outcome (A : Type) : Type :=
| Return (a : A)
| Raise (e : string).
Arguments Return {A} a.
Arguments Raise {A} e.

Definition M (A : Type) : Type := world -> outcome A * world.

Definition ret {A} (a : A) : M A := fun w => (Return a, w).

Definition and_then {A B} (m : M A) (k : A -> M B) : M B :=
  fun w => match m w with
           | (Return a, w') => k a w'
           | (Raise e, w') => (Raise e, w')
           end.

(** [try: m except Exception as e: h e] *)
Definition try_except {A} (m : M A) (h : string -> M A) : M A :=
  fun w => match m w with
           | (Return a, w') => (Return a, w')
           | (Raise e, w') => h e w'
           end.

Declare Scope py_scope.
Delimit Scope py_scope with py.
Notation "'let*' x ':=' m 'in' k" := (and_then m (fun x => k))
  (at level 10, x name, m at level 100, k at level 200) : py_scope.
Notation "'perform' m 'then' k" := (and_then m (fun _ => k))
  (at level 10, m at level 100, k at level 200) : py_scope.
Open Scope py_scope.

Definition get_world : M world := fun w => (Return w, w).
Definition modify (f : world -> world) : M unit := fun w => (Return tt, f w).

(** ** Field updates *)

Definition set_sessions (f : gmap string session -> gmap string session) (w : world) : world :=
  {| sessions := f (sessions w); prewarmed_pool := prewarmed_pool w;
     attrs := attrs w; daemon := daemon w; next_cid := next_cid w;
     files := files w; clock := clock w; events := events w |}.

Definition set_pool (f : list cid -> list cid) (w : world) : world :=
  {| sessions := sessions w; prewarmed_pool := f (prewarmed_pool w);
     attrs := attrs w; daemon := daemon w; next_cid := next_cid w;
     files := files w; clock := clock w; events := events w |}.

Definition set_attrs (f : gmap cid string -> gmap cid string) (w : world) : world :=
  {| sessions := sessions w; prewarmed_pool := prewarmed_pool w;
     attrs := f (attrs w); daemon := daemon w; next_cid := next_cid w;
     files := files w; clock := clock w; events := events w |}.

Definition set_daemon (f : gmap cid dcontainer -> gmap cid dcontainer) (w : world) : world :=
  {| sessions := sessions w; prewarmed_pool := prewarmed_pool w;
     attrs := attrs w; daemon := f (daemon w); next_cid := next_cid w;
     files := files w; clock := clock w; events := events w |}.

Definition set_next_cid (n : cid) (w : world) : world :=
  {| sessions := sessions w; prewarmed_pool := prewarmed_pool w;
     attrs := attrs w; daemon := daemon w; next_cid := n;
     files := files w; clock := clock w; events := events w |}.

Definition set_files (f : gmap string string -> gmap string string) (w : world) : world :=
  {| sessions := sessions w; prewarmed_pool := prewarmed_pool w;
     attrs := attrs w; daemon := daemon w; next_cid := next_cid w;
     files := f (files w); clock := clock w; events := events w |}.

(** An external call answered by [r]: it takes [r_elapsed r] and is counted. *)
Definition answered (r : response) (w : world) : world :=
  {| sessions := sessions w; prewarmed_pool := prewarmed_pool w;
     attrs := attrs w; daemon := daemon w; next_cid := next_cid w;
     files := files w; clock := (clock w + r_elapsed r)%Q; events := S (events w) |}.

(** [time.sleep(d)] *)
Definition slept (d : Q) (w : world) : world :=
  {| sessions := sessions w; prewarmed_pool := prewarmed_pool w;
     attrs := attrs w; daemon := daemon w; next_cid := next_cid w;
     files := files w; clock := (clock w + d)%Q; events := events w |}.

(** ** Paths *)

Definition slash : ascii := "/"%char.

Fixpoint has_slash (p : string) : bool :=
  match p with
  | EmptyString => false
  | String c rest => if Ascii.eqb c slash then true else has_slash rest
  end.

(** [os.path.basename]: what follows the last slash. *)
Fixpoint basename (p : string) : string :=
  match p with
  | EmptyString => EmptyString
  | String c rest =>
      if has_slash rest then basename rest
      else if Ascii.eqb c slash then rest else p
  end.

Definition starts_with_slash (p : string) : bool :=
  match p with
  | String c _ => Ascii.eqb c slash
  | EmptyString => false
  end.

Fixpoint ends_with_slash (p : string) : bool :=
  match p with
  | EmptyString => false
  | String c EmptyString => Ascii.eqb c slash
  | String _ rest => ends_with_slash rest
  end.

(** [os.path.join] of two components (posixpath). *)
Definition os_path_join (a b : string) : string :=
  if starts_with_slash b then b
  else if (String.eqb a "" || ends_with_slash a)%bool then a +:+ b
  else a +:+ "/" +:+ b.

(** ** Requests and responses *)

(** A [FileStorage] of [request.files]. *)
Record file_storage := { filename : string; content : string }.

Record request := { request_files : list (string * file_storage) }.

(** [request.files[key]], and [key in request.files] as [is_Some] of it. *)
Fixpoint files_get (key : string) (fs : list (string * file_storage)) : option file_storage :=
  match fs with
  | [] => None
  | (k, f) :: rest => if String.eqb k key then Some f else files_get key rest
  end.

(** [jsonify({k: v})] *)
Definition json := list (string * string).
Definition jsonify (k v : string) : json := [(k, v)].

(** The pair [jsonify(...), code] returned by a view function. *)
Definition reply : Type := json * nat.

(** The replies the handlers produce, under the names of the specification. *)
Definition MissingPayload : reply := (jsonify "error" "No file provided", 400).
Definition SessionNotFound : reply := (jsonify "error" "Session not found", 404).
Definition Running : reply := (jsonify "status" "still running", 202).
Definition Finished (logs : string) : reply := (jsonify "logs" logs, 200).
Definition RetrievalError (cause : string) : reply := (jsonify "error" cause, 500).
Definition DispatchFailure (cause : string) : reply := (jsonify "error" cause, 500).
Definition Dispatched (session_id : string) : reply := (jsonify "session_id" session_id, 200).
Definition CleanedUp : reply := (jsonify "status" "cleaned up", 200).
Definition TeardownError (cause : string) : reply := (jsonify "error" cause, 500).

(** ** The program *)

Section Program.

Variable env : environment.

(** *** External calls *)

(** Every external call consumes the next answer of the environment; an
    answer carrying an error makes the call raise. *)
Definition external : M response :=
  fun w => let r := env (events w) in
           match r_error r with
           | Some e => (Raise e, answered r w)
           | None => (Return r, answered r w)
           end.

(** [str(uuid.uuid4())]; it does not raise. *)
Definition uuid4 : M string :=
  fun w => let r := env (events w) in (Return (r_uuid r), answered r w).

(** [time.time()] *)
Definition time_time : M Q := fun w => (Return (clock w), w).

(** [time.sleep(d)] *)
Definition time_sleep (d : Q) : M unit := modify (slept d).

(** [os.makedirs(path, exist_ok=True)]; only regular files are tracked. *)
Definition os_makedirs (path : string) : M unit :=
  perform external then ret tt.

(** [code_file.save(file_path)] *)
Definition save (code_file : file_storage) (file_path : string) : M unit :=
  perform external then modify (set_files (insert file_path (content code_file))).

(** [_make_tar(file_path)]: one member, named by the basename of the path. *)
Definition _make_tar (file_path : string) : M tar :=
  perform external then
  let* w := get_world in
  match files w !! file_path with
  | Some data => ret [(basename file_path, data)]
  | None => fun w' => (Raise "FileNotFoundError", w')
  end.

(** [docker_client.containers.run(image, command=..., detach=True,
    auto_remove=False, ...)]: the daemon creates the container under a fresh
    identity and the call returns the object wrapping it. *)
Definition containers_run (c : dcontainer) : M cid :=
  let* r := external in
  let* w := get_world in
  let new := next_cid w in
  perform modify (set_daemon (insert new c)) then
  perform modify (set_attrs (insert new (r_status r))) then
  perform modify (set_next_cid (S new)) then
  ret new.

Definition with_archive (path : string) (t : tar) (c : dcontainer) : dcontainer :=
  {| image := image c; command := command c; network_disabled := network_disabled c;
     tty := tty c; volumes := volumes c; working_dir := working_dir c;
     res_limits := res_limits c; archives := archives c ++ [(path, t)];
     execs := execs c; stopped := stopped c |}.

Definition with_exec (cmd : string) (detach : bool) (c : dcontainer) : dcontainer :=
  {| image := image c; command := command c; network_disabled := network_disabled c;
     tty := tty c; volumes := volumes c; working_dir := working_dir c;
     res_limits := res_limits c; archives := archives c;
     execs := execs c ++ [(cmd, detach)]; stopped := stopped c |}.

Definition with_stopped (c : dcontainer) : dcontainer :=
  {| image := image c; command := command c; network_disabled := network_disabled c;
     tty := tty c; volumes := volumes c; working_dir := working_dir c;
     res_limits := res_limits c; archives := archives c;
     execs := execs c; stopped := true |}.

(** [docker_client.api.put_archive(container.id, path, data)] *)
Definition put_archive (c : cid) (path : string) (data : tar) : M unit :=
  perform external then modify (set_daemon (alter (with_archive path data) c)).

(** [container.exec_run(cmd, detach=...)] *)
Definition exec_run (c : cid) (cmd : string) (detach : bool) : M unit :=
  perform external then modify (set_daemon (alter (with_exec cmd detach) c)).

(** [container.reload()]: refreshes the cached attributes of the object. *)
Definition reload (c : cid) : M unit :=
  let* r := external in modify (set_attrs (insert c (r_status r))).

(** [container.status]: read from the cached attributes. *)
Definition status (c : cid) : M string :=
  fun w => (Return (default "" (attrs w !! c)), w).

(** [container.logs().decode("utf-8")] *)
Definition logs (c : cid) : M string :=
  let* r := external in ret (r_logs r).

(** [container.stop()] *)
Definition stop (c : cid) : M unit :=
  perform external then modify (set_daemon (alter with_stopped c)).

(** [container.remove()] *)
Definition remove (c : cid) : M unit :=
  perform external then modify (set_daemon (delete c)).

(** [prewarmed_pool.pop()]: removes and returns the last element. *)
Definition pool_pop : M cid :=
  fun w => match last (prewarmed_pool w) with
           | Some c => (Return c, set_pool (@removelast cid) w)
           | None => (Raise "pop from empty list", w)
           end.

(** *** Prewarm pool *)

Definition prewarmed_spec : dcontainer :=
  {| image := CONTAINER_IMAGE; command := ["sleep"; "3600"];
     network_disabled := true; tty := true; volumes := []; working_dir := None;
     res_limits := RESOURCE_LIMITS; archives := []; execs := []; stopped := false |}.

Definition create_prewarmed_container : M unit :=
  try_except
    (let* c := containers_run prewarmed_spec in
     modify (set_pool (fun pool => pool ++ [c])))
    (fun _ => ret tt).

(** [initialize_prewarmed_pool]: the [while] loop runs until the pool has
    reached its target size, which it need not do; [fuel] bounds the number
    of times the loop condition is evaluated, and [None] means that the loop
    was still running when the fuel ran out. *)
Fixpoint initialize_prewarmed_pool (fuel : nat) (w : world)
  : option (outcome unit * world) :=
  match fuel with
  | O => None
  | S k =>
      if Nat.ltb (length (prewarmed_pool w)) PREWARMED_POOL_SIZE
      then match create_prewarmed_container w with
           | (Return _, w') => initialize_prewarmed_pool k w'
           | (Raise e, w') => Some (Raise e, w')
           end
      else Some (Return tt, w)
  end.

(** *** [execute_code] *)

Definition on_demand_spec (session_dir : string) : dcontainer :=
  {| image := CONTAINER_IMAGE; command := ["python"; "-m"; "http.server"];
     network_disabled := true; tty := false;
     volumes := [{| host_path := session_dir; bind := "/code"; mode := "ro" |}];
     working_dir := Some "/code";
     res_limits := RESOURCE_LIMITS; archives := []; execs := []; stopped := false |}.

Definition execute_code (req : request) : M reply :=
  match files_get "file" (request_files req) with
  | None => ret MissingPayload
  | Some code_file =>
      let* session_id := uuid4 in
      let session_dir := "/tmp/" +:+ session_id in
      perform os_makedirs session_dir then
      let file_path := os_path_join session_dir (filename code_file) in
      perform save code_file file_path then
      try_except
        (let* w := get_world in
         let* c :=
           match prewarmed_pool w with
           | _ :: _ =>
               let* c := pool_pop in
               let* tar_data := _make_tar file_path in
               perform put_archive c "/code" tar_data then
               perform exec_run c "python /code/main.py" true then
               ret c
           | [] => containers_run (on_demand_spec session_dir)
           end in
         let* now := time_time in
         perform modify (set_sessions
                           (insert session_id {| container := c; start_time := now |})) then
         ret (Dispatched session_id))
        (fun e => ret (DispatchFailure e))
  end.

(** *** [get_result] *)

(** [sessions.get(session_id)] is [None] or a dict with two keys, so
    [not session] holds exactly when the identifier is absent. *)
Definition get_result (session_id : string) : M reply :=
  let* w := get_world in
  match sessions w !! session_id with
  | None => ret SessionNotFound
  | Some session =>
      let c := container session in
      try_except
        (perform reload c then
         let* st := status c in
         if String.eqb st "running" then ret Running
         else let* l := logs c in ret (Finished l))
        (fun e => ret (RetrievalError e))
  end.

(** *** [cleanup_session] *)

(** [sessions.pop(session_id, None)] *)
Definition sessions_pop (session_id : string) : M (option session) :=
  fun w => (Return (sessions w !! session_id), set_sessions (delete session_id) w).

Definition cleanup_session (session_id : string) : M reply :=
  let* popped := sessions_pop session_id in
  match popped with
  | None => ret SessionNotFound
  | Some session =>
      let c := container session in
      try_except
        (perform stop c then
         perform remove c then
         ret CleanedUp)
        (fun e => ret (TeardownError e))
  end.

(** *** [cleanup_expired_sessions] *)

(** The [for] loop over the snapshot [list(sessions.items())]. *)
Fixpoint expire_sessions (snapshot : list (string * session)) : M unit :=
  match snapshot with
  | [] => ret tt
  | (session_id, session) :: rest =>
      let* now := time_time in
      perform
        (if Qlt_le_dec TIMEOUT_SECONDS (now - start_time session)
         then
           let c := container session in
           perform try_except (perform stop c then remove c) (fun _ => ret tt) then
           perform sessions_pop session_id then ret tt
         else ret tt) then
      expire_sessions rest
  end.

(** One pass of the body of [while True]. *)
Definition sweep : M unit :=
  let* w := get_world in
  perform expire_sessions (map_to_list (sessions w)) then
  let* w' := get_world in
  perform
    (if Nat.ltb (length (prewarmed_pool w')) PREWARMED_POOL_SIZE
     then create_prewarmed_container else ret tt) then
  time_sleep SWEEP_SLEEP.

(** The first [n] passes of the loop, which itself never returns. *)
Fixpoint cleanup_expired_sessions (n : nat) : M unit :=
  match n with
  | O => ret tt
  | S k => perform sweep then cleanup_expired_sessions k
  end.

(** *** [shutdown_cleanup] *)

Fixpoint drain (pool : list cid) : M unit :=
  match pool with
  | [] => ret tt
  | c :: rest =>
      perform try_except (perform stop c then remove c) (fun _ => ret tt) then
      drain rest
  end.

Definition shutdown_cleanup : M unit :=
  let* w := get_world in
  perform drain (prewarmed_pool w) then
  modify (set_pool (fun _ => [])).

End Program.

(** ** Drivers *)

(** [n] successive calls of [get_result] on one identifier, with the replies
    in the order they were given. *)
Fixpoint poll (env : environment) (session_id : string) (n : nat) (w : world)
  : list (outcome reply) * world :=
  match n with
  | O => ([], w)
  | S k =>
      let (r, w') := get_result env session_id w in
      let (rs, w'') := poll env session_id k w' in
      (r :: rs, w'')
  end.

(** What can happen to the world: a request is served, the sweeper makes a
    pass, the maintenance path provisions a container, the process is told to
    shut down, or time passes. *)
Inductive action :=
| Execute (req : request)
| GetResult (session_id : string)
| Cleanup (session_id : string)
| Sweep
| Provision
| Shutdown
| Elapse (d : Q).

Definition apply_action (env : environment) (a : action) (w : world) : world :=
  match a with
  | Execute req => snd (execute_code env req w)
  | GetResult session_id => snd (get_result env session_id w)
  | Cleanup session_id => snd (cleanup_session env session_id w)
  | Sweep => snd (sweep env w)
  | Provision => snd (create_prewarmed_container env w)
  | Shutdown => snd (shutdown_cleanup env w)
  | Elapse d => slept d w
  end.

(** The world after the cached status of [c] was refreshed from [w]. *)
Definition refreshed (env : environment) (c : cid) (w : world) : world :=
  set_attrs (insert c (r_status (env (events w)))) (answered (env (events w)) w).

(** A handle is bound when some record of the registry refers to it. *)
Definition bound_in (ss : gmap string session) (c : cid) : Prop :=
  ∃ session_id session, ss !! session_id = Some session ∧ container session = c.


(** A pooled handle is idle when the daemon still holds it exactly as it was
    provisioned: running the standby command, nothing injected, nothing
    exec'd, not stopped. *)
Definition idle_in (dm : gmap cid dcontainer) (c : cid) : Prop :=
  dm !! c = Some prewarmed_spec.

Definition idle (w : world) (c : cid) : Prop := idle_in (daemon w) c.

(** The invariant of the registry, the pool and the daemon: pooled handles
    are not bound, are idle and occur once, and every handle the program
    holds was handed out by the daemon. *)
Record inv_on (ss : gmap string session) (pool : list cid)
    (dm : gmap cid dcontainer) (next : cid) : Prop := {
  inv_exclusive : ∀ c, c ∈ pool -> ¬ bound_in ss c;
  inv_idle : ∀ c, c ∈ pool -> idle_in dm c;
  inv_nodup : NoDup pool;
  inv_pool_known : ∀ c, c ∈ pool -> c < next;
  inv_bound_known : ∀ c, bound_in ss c -> c < next
}.

Definition inv (w : world) : Prop :=
  inv_on (sessions w) (prewarmed_pool w) (daemon w) (next_cid w).

(** No external call takes time. *)
Definition instantaneous (env : environment) : Prop :=
  ∀ k, (r_elapsed (env k) == 0)%Q.

(** External calls do not make the clock run backwards. *)
Definition monotone (env : environment) : Prop :=
  ∀ k, (0 <= r_elapsed (env k))%Q.

(** No external call raises. *)
Definition faultless (env : environment) : Prop :=
  ∀ k, r_error (env k) = None.

(** The worlds the program reaches when its handlers run one after the other,
    each to its end: requests, sweeper passes, [shutdown_cleanup] and the
    passing of time in any order, and containers provisioned only where the
    program does it, in [initialize_prewarmed_pool] and at the end of a
    sweeper pass.  The program also interleaves its handlers; [interleaved]
    below follows it statement by statement. *)
Inductive runs (env : environment) : world -> Prop :=
| runs_initial : runs env initial_world
| runs_action a w : a ≠ Provision -> runs env w -> runs env (apply_action env a w)
| runs_initialize fuel w o w' :
    runs env w -> initialize_prewarmed_pool env fuel w = Some (o, w') -> runs env w'.

(** The time taken by the external calls numbered below [b], and by those
    numbered from [a] up to, not including, [b]. *)
Fixpoint total_time (env : environment) (b : nat) : Q :=
  match b with
  | O => 0
  | S k => total_time env k + r_elapsed (env k)
  end.



(** The registry of [w'] is that of [w] with some records removed. *)
Definition only_removed (w w' : world) : Prop :=
  ∀ k, sessions w' !! k = None ∨ sessions w' !! k = sessions w !! k.


(** The record [session] is past the budget when the clock shows [now]. *)
Definition expired (now : Q) (session : session) : Prop :=
  (TIMEOUT_SECONDS < now - start_time session)%Q.

(** ** Scenarios *)

(** An environment in which nothing fails, every call returns at once and
    every container is reported as running, as one whose main process is the
    standby HTTP server is. *)
Definition quiet : environment := fun _ =>
  {| r_error := None; r_status := "running"; r_logs := ""; r_uuid := "s1";
     r_elapsed := 0 |}.

(** As [quiet], but every container is reported as created and not started. *)
Definition created_only : environment := fun _ =>
  {| r_error := None; r_status := "created"; r_logs := ""; r_uuid := "s1";
     r_elapsed := 0 |}.

(** As [quiet], but every container has exited with some output. *)
Definition exited : environment := fun _ =>
  {| r_error := None; r_status := "exited"; r_logs := "done"; r_uuid := "s1";
     r_elapsed := 0 |}.

(** As [quiet], but the daemon cannot be reached: every call raises. *)
Definition unreachable : environment := fun _ =>
  {| r_error := Some "connection refused"; r_status := ""; r_logs := "";
     r_uuid := "s1"; r_elapsed := 0 |}.


(** As [quiet], but the external call numbered [n] raises. *)
Definition fails_at (n : nat) : environment := fun k =>
  {| r_error := if Nat.eqb k n then Some "boom" else None;
     r_status := "running"; r_logs := ""; r_uuid := "s1"; r_elapsed := 0 |}.

Definition upload (name data : string) : request :=
  {| request_files := [("file", {| filename := name; content := data |})] |}.

Definition no_upload : request := {| request_files := [] |}.

(** The registry holds one session, dispatched on demand at time 0. *)
Definition one_session : world := snd (execute_code quiet (upload "main.py" "print('hi')") initial_world).

(** The registry holds that session and the pool one idle container. *)
Definition session_and_pool : world := snd (create_prewarmed_container quiet one_session).

(** The session of [one_session], ten seconds later. *)
Definition at_the_budget : world := slept 10 one_session.


(** The pool holds one idle container. *)
Definition one_pooled : world := snd (create_prewarmed_container quiet initial_world).

(** From the [from]-th external call on, the daemon answers every call and
    reports a status other than running. *)
Definition reported_terminated (env : environment) (from : nat) : Prop :=
  ∀ k, from <= k -> r_error (env k) = None ∧ r_status (env k) ≠ "running".

(** ** Threads

    The handlers do not run one after the other: Flask serves each request
    in a thread of its own, the sweeper loops in a daemon thread and
    [shutdown_cleanup] runs when a signal arrives.  A [thread] is a handler
    stopped between two of its statements, with the values of its local
    variables; [step] executes the next statement, which is atomic, on the
    shared world.  The statements are those of the functions above and use
    the same external calls. *)

(** Who called [create_prewarmed_container]. *)
Inductive caller := Sweeper | Initializer.

Inductive thread :=
(* execute_code *)
| Execute_start (req : request)
| Execute_uuid (code_file : file_storage)
| Execute_makedirs (code_file : file_storage) (session_id : string)
| Execute_save (code_file : file_storage) (session_id : string)
| Execute_try (session_id file_path : string)
| Execute_pop (session_id file_path : string)
| Execute_make_tar (session_id file_path : string) (c : cid)
| Execute_put_archive (session_id : string) (c : cid) (tar_data : tar)
| Execute_exec_run (session_id : string) (c : cid)
| Execute_run (session_id : string)
| Execute_store (session_id : string) (c : cid)
(* get_result *)
| Result_start (session_id : string)
| Result_reload (c : cid)
| Result_status (c : cid)
| Result_logs (c : cid)
(* cleanup_session *)
| Cleanup_start (session_id : string)
| Cleanup_stop (c : cid)
| Cleanup_remove (c : cid)
(* cleanup_expired_sessions *)
| Sweep_snapshot
| Sweep_check (snapshot : list (string * session))
| Sweep_stop (session_id : string) (c : cid) (rest : list (string * session))
| Sweep_remove (session_id : string) (c : cid) (rest : list (string * session))
| Sweep_pop (session_id : string) (rest : list (string * session))
| Sweep_len
| Sweep_sleep
(* create_prewarmed_container *)
| Create_run (who : caller)
| Create_append (who : caller) (c : cid)
(* initialize_prewarmed_pool *)
| Init_len
(* shutdown_cleanup; [i] is the position of the list iterator *)
| Shutdown_next (i : nat)
| Shutdown_stop (i : nat) (c : cid)
| Shutdown_remove (i : nat) (c : cid)
| Shutdown_clear.

(** What a statement leads to: the next statement, the reply of a request
    handler, or the end of a function that returns nothing. *)
Inductive result :=
| Next (t : thread)
| Replied (o : outcome reply)
| Ended.

Definition proceed {A} (r : outcome A * world) (k : A -> result) (h : string -> result)
  : result * world :=
  match r with
  | (Return a, w') => (k a, w')
  | (Raise e, w') => (h e, w')
  end.

(** Where [create_prewarmed_container] returns to. *)
Definition after (who : caller) : result :=
  match who with
  | Sweeper => Next Sweep_sleep
  | Initializer => Next Init_len
  end.

Definition step (env : environment) (t : thread) (w : world) : result * world :=
  let unhandled e := Replied (Raise e) in
  let dispatch_failure e := Replied (Return (DispatchFailure e)) in
  let retrieval_error e := Replied (Return (RetrievalError e)) in
  let teardown_error e := Replied (Return (TeardownError e)) in
  match t with
  | Execute_start req =>
      match files_get "file" (request_files req) with
      | None => (Replied (Return MissingPayload), w)
      | Some code_file => (Next (Execute_uuid code_file), w)
      end
  | Execute_uuid code_file =>
      proceed (uuid4 env w) (fun session_id => Next (Execute_makedirs code_file session_id))
        unhandled
  | Execute_makedirs code_file session_id =>
      proceed (os_makedirs env ("/tmp/" +:+ session_id) w)
        (fun _ => Next (Execute_save code_file session_id)) unhandled
  | Execute_save code_file session_id =>
      let file_path := os_path_join ("/tmp/" +:+ session_id) (filename code_file) in
      proceed (save env code_file file_path w)
        (fun _ => Next (Execute_try session_id file_path)) unhandled
  | Execute_try session_id file_path =>
      match prewarmed_pool w with
      | _ :: _ => (Next (Execute_pop session_id file_path), w)
      | [] => (Next (Execute_run session_id), w)
      end
  | Execute_pop session_id file_path =>
      proceed (pool_pop w) (fun c => Next (Execute_make_tar session_id file_path c))
        dispatch_failure
  | Execute_make_tar session_id file_path c =>
      proceed (_make_tar env file_path w)
        (fun tar_data => Next (Execute_put_archive session_id c tar_data)) dispatch_failure
  | Execute_put_archive session_id c tar_data =>
      proceed (put_archive env c "/code" tar_data w)
        (fun _ => Next (Execute_exec_run session_id c)) dispatch_failure
  | Execute_exec_run session_id c =>
      proceed (exec_run env c "python /code/main.py" true w)
        (fun _ => Next (Execute_store session_id c)) dispatch_failure
  | Execute_run session_id =>
      proceed (containers_run env (on_demand_spec ("/tmp/" +:+ session_id)) w)
        (fun c => Next (Execute_store session_id c)) dispatch_failure
  | Execute_store session_id c =>
      (Replied (Return (Dispatched session_id)),
       set_sessions (insert session_id {| container := c; start_time := clock w |}) w)
  | Result_start session_id =>
      match sessions w !! session_id with
      | None => (Replied (Return SessionNotFound), w)
      | Some session => (Next (Result_reload (container session)), w)
      end
  | Result_reload c =>
      proceed (reload env c w) (fun _ => Next (Result_status c)) retrieval_error
  | Result_status c =>
      proceed (status c w)
        (fun st => if String.eqb st "running" then Replied (Return Running)
                   else Next (Result_logs c))
        retrieval_error
  | Result_logs c =>
      proceed (logs env c w) (fun l => Replied (Return (Finished l))) retrieval_error
  | Cleanup_start session_id =>
      proceed (sessions_pop session_id w)
        (fun popped => match popped with
                       | None => Replied (Return SessionNotFound)
                       | Some session => Next (Cleanup_stop (container session))
                       end)
        unhandled
  | Cleanup_stop c =>
      proceed (stop env c w) (fun _ => Next (Cleanup_remove c)) teardown_error
  | Cleanup_remove c =>
      proceed (remove env c w) (fun _ => Replied (Return CleanedUp)) teardown_error
  | Sweep_snapshot => (Next (Sweep_check (map_to_list (sessions w))), w)
  | Sweep_check [] => (Next Sweep_len, w)
  | Sweep_check ((session_id, session) :: rest) =>
      if Qlt_le_dec TIMEOUT_SECONDS (clock w - start_time session)
      then (Next (Sweep_stop session_id (container session) rest), w)
      else (Next (Sweep_check rest), w)
  | Sweep_stop session_id c rest =>
      proceed (stop env c w) (fun _ => Next (Sweep_remove session_id c rest))
        (fun _ => Next (Sweep_pop session_id rest))
  | Sweep_remove session_id c rest =>
      proceed (remove env c w) (fun _ => Next (Sweep_pop session_id rest))
        (fun _ => Next (Sweep_pop session_id rest))
  | Sweep_pop session_id rest =>
      proceed (sessions_pop session_id w) (fun _ => Next (Sweep_check rest)) unhandled
  | Sweep_len =>
      if Nat.ltb (length (prewarmed_pool w)) PREWARMED_POOL_SIZE
      then (Next (Create_run Sweeper), w)
      else (Next Sweep_sleep, w)
  | Sweep_sleep => (Next Sweep_snapshot, slept SWEEP_SLEEP w)
  | Create_run who =>
      proceed (containers_run env prewarmed_spec w) (fun c => Next (Create_append who c))
        (fun _ => after who)
  | Create_append who c => (after who, set_pool (fun pool => pool ++ [c]) w)
  | Init_len =>
      if Nat.ltb (length (prewarmed_pool w)) PREWARMED_POOL_SIZE
      then (Next (Create_run Initializer), w)
      else (Ended, w)
  | Shutdown_next i =>
      match prewarmed_pool w !! i with
      | Some c => (Next (Shutdown_stop i c), w)
      | None => (Next Shutdown_clear, w)
      end
  | Shutdown_stop i c =>
      proceed (stop env c w) (fun _ => Next (Shutdown_remove i c))
        (fun _ => Next (Shutdown_next (S i)))
  | Shutdown_remove i c =>
      proceed (remove env c w) (fun _ => Next (Shutdown_next (S i)))
        (fun _ => Next (Shutdown_next (S i)))
  | Shutdown_clear => (Ended, set_pool (fun _ => []) w)
  end.

(** The functions a thread can enter: the three routes, the sweeper loop
    started from [__main__], [initialize_prewarmed_pool] and the
    [shutdown_cleanup] registered for [atexit] and the signals. *)
Inductive entry :=
| Dispatch (req : request)
| Poll (session_id : string)
| Clean (session_id : string)
| Sweeping
| Initializing
| Draining.

Definition start (e : entry) : thread :=
  match e with
  | Dispatch req => Execute_start req
  | Poll session_id => Result_start session_id
  | Clean session_id => Cleanup_start session_id
  | Sweeping => Sweep_snapshot
  | Initializing => Init_len
  | Draining => Shutdown_next 0
  end.

(** What happens next: a thread enters a function, the thread at position
    [i] executes its next statement, or time passes. *)
Inductive event :=
| Arrive (e : entry)
| Run (i : nat)
| Pass (d : Q).

Definition config : Type := world * list thread.

Definition occur (env : environment) (ev : event) (cfg : config) : config :=
  match ev with
  | Arrive e => (fst cfg, start e :: snd cfg)
  | Run i =>
      match snd cfg !! i with
      | None => cfg
      | Some t =>
          match step env t (fst cfg) with
          | (Next t', w') => (w', <[i:=t']> (snd cfg))
          | (_, w') => (w', delete i (snd cfg))
          end
      end
  | Pass d => (slept d (fst cfg), snd cfg)
  end.

(** The configurations some interleaving of the threads leads to. *)
Inductive interleaved (env : environment) : config -> Prop :=
| interleaved_initial : interleaved env (initial_world, [])
| interleaved_event ev cfg :
    interleaved env cfg -> interleaved env (occur env ev cfg).

(** A schedule, run from a configuration. *)
Definition play (env : environment) (schedule : list event) (cfg : config) : config :=
  foldl (fun c ev => occur env ev c) cfg schedule.

(** The first [n] statements of a thread that nothing interferes with. *)
Fixpoint steps (env : environment) (n : nat) (t : thread) (w : world) : result * world :=
  match n with
  | O => (Next t, w)
  | S k =>
      match step env t w with
      | (Next t', w') => steps env k t' w'
      | (r, w') => (r, w')
      end
  end.


(** A request is dispatched from the pool while the sweeper is at work: the
    dispatch takes the pooled container, the sweeper provisions another and
    appends it to the pool, and the dispatch goes on to run the payload, up
    to the point where it is about to register the session. *)
Definition busy : list event :=
  [Arrive Initializing; Run 0; Run 0; Run 0; Run 0;
   Arrive Sweeping; Arrive (Dispatch (upload "main.py" "print('hi')"));
   Run 0; Run 0; Run 0; Run 0; Run 0; Run 0;
   Run 1; Run 1; Run 1; Run 1; Run 1;
   Run 0; Run 0; Run 0].






(** What [f] finds in the thread a statement leads to, if any. *)
Definition of_result {A} (f : thread -> list A) (r : result) : list A :=
  match r with
  | Next t => f t
  | _ => []
  end.







(** ** Specifications of computations *)

(** [post m w Q]: running [m] from [w] ends, normally or by an exception, in
    an outcome and a world related by [Q]. *)
Definition post {A} (m : M A) (w : world) (Q : outcome A -> world -> Prop) : Prop :=
  Q (fst (m w)) (snd (m w)).

(** * Properties *)

(** ** Rules for [post] *)

Section Rules.

Context {A B : Type}.

Lemma post_ret (a : A) w Q : Q (Return a) w -> post (ret a) w Q.
Proof. exact id. Qed.

Lemma post_and_then (m : M A) (k : A -> M B) w Q :
  post m w (λ o w', match o with
                    | Return a => post (k a) w' Q
                    | Raise e => Q (Raise e) w'
                    end) ->
  post (and_then m k) w Q.
Proof.
  unfold post, and_then. destruct (m w) as [[a|e] w']; simpl; auto.
Qed.

Lemma post_try_except (m : M A) (h : string -> M A) w Q :
  post m w (λ o w', match o with
                    | Return a => Q (Return a) w'
                    | Raise e => post (h e) w' Q
                    end) ->
  post (try_except m h) w Q.
Proof.
  unfold post, try_except. destruct (m w) as [[a|e] w']; simpl; auto.
Qed.

Lemma post_weaken (m : M A) w (Q Q' : outcome A -> world -> Prop) :
  post m w Q -> (∀ o w', Q o w' -> Q' o w') -> post m w Q'.
Proof. unfold post. auto. Qed.

End Rules.

Lemma post_get_world w Q : Q (Return w) w -> post get_world w Q.
Proof. exact id. Qed.

Lemma post_modify f w Q : Q (Return tt) (f w) -> post (modify f) w Q.
Proof. exact id. Qed.

Lemma post_external env w Q :
  (∀ e, r_error (env (events w)) = Some e -> Q (Raise e) (answered (env (events w)) w)) ->
  (r_error (env (events w)) = None ->
   Q (Return (env (events w))) (answered (env (events w)) w)) ->
  post (external env) w Q.
Proof.
  unfold post, external. destruct (r_error (env (events w))); simpl; auto.
Qed.

Lemma post_uuid4 env w Q :
  Q (Return (r_uuid (env (events w)))) (answered (env (events w)) w) ->
  post (uuid4 env) w Q.
Proof. exact id. Qed.

Lemma post_time_time w Q : Q (Return (clock w)) w -> post time_time w Q.
Proof. exact id. Qed.

Lemma post_status c w Q :
  Q (Return (default "" (attrs w !! c))) w -> post (status c) w Q.
Proof. exact id. Qed.

Lemma post_pool_pop w Q :
  (∀ c, last (prewarmed_pool w) = Some c -> Q (Return c) (set_pool (@removelast cid) w)) ->
  (last (prewarmed_pool w) = None -> Q (Raise "pop from empty list") w) ->
  post pool_pop w Q.
Proof.
  unfold post, pool_pop. destruct (last (prewarmed_pool w)); simpl; auto.
Qed.

Lemma post_sessions_pop session_id w Q :
  Q (Return (sessions w !! session_id)) (set_sessions (delete session_id) w) ->
  post (sessions_pop session_id) w Q.
Proof. exact id. Qed.

Lemma post_raise {A} e w (Q : outcome A -> world -> Prop) :
  Q (Raise e) w -> post (λ w', (Raise e, w')) w Q.
Proof. exact id. Qed.

(** Symbolic execution: split a computation along the rules above, leaving
    one goal for each path through it. *)
Ltac exec_step :=
  lazymatch goal with
  | |- post (and_then _ _) _ _ => apply post_and_then
  | |- post (try_except _ _) _ _ => apply post_try_except
  | |- post (ret _) _ _ => apply post_ret
  | |- post get_world _ _ => apply post_get_world
  | |- post (modify _) _ _ => apply post_modify
  | |- post (external _) _ _ => apply post_external; [intros ? ?|intros ?]
  | |- post (uuid4 _) _ _ => apply post_uuid4
  | |- post time_time _ _ => apply post_time_time
  | |- post (time_sleep _) _ _ => unfold time_sleep
  | |- post (status _) _ _ => apply post_status
  | |- post pool_pop _ _ => apply post_pool_pop; [intros ? ?|intros ?]
  | |- post (sessions_pop _) _ _ => apply post_sessions_pop
  | |- post (λ _, (Raise _, _)) _ _ => apply post_raise
  | |- post (os_makedirs _ _) _ _ => unfold os_makedirs
  | |- post (save _ _ _) _ _ => unfold save
  | |- post (_make_tar _ _) _ _ => unfold _make_tar
  | |- post (containers_run _ _) _ _ => unfold containers_run
  | |- post (put_archive _ _ _ _) _ _ => unfold put_archive
  | |- post (exec_run _ _ _ _) _ _ => unfold exec_run
  | |- post (reload _ _) _ _ => unfold reload
  | |- post (logs _ _) _ _ => unfold logs
  | |- post (stop _ _) _ _ => unfold stop
  | |- post (remove _ _) _ _ => unfold remove
  | |- post (create_prewarmed_container _) _ _ => unfold create_prewarmed_container
  | |- post (match ?x with _ => _ end) _ _ => destruct x eqn:?
  | |- post (if ?x then _ else _) _ _ => destruct x eqn:?
  end; cbv beta iota.

Ltac exec := repeat exec_step.

(** ** Result retrieval *)

Section ResultRetrieval.

Variable env : environment.

Lemma get_result_unknown session_id w :
  sessions w !! session_id = None ->
  get_result env session_id w = (Return SessionNotFound, w).
Proof.
  intros Hnone. unfold get_result, and_then, get_world. simpl.
  now rewrite Hnone.
Qed.

(** The three ways a call on a registered session can go. *)
Lemma get_result_registered session_id session w :
  sessions w !! session_id = Some session ->
  get_result env session_id w =
    match r_error (env (events w)) with
    | Some e => (Return (RetrievalError e), answered (env (events w)) w)
    | None =>
        let w1 := refreshed env (container session) w in
        if String.eqb (r_status (env (events w))) "running"
        then (Return Running, w1)
        else match r_error (env (S (events w))) with
             | Some e => (Return (RetrievalError e), answered (env (S (events w))) w1)
             | None => (Return (Finished (r_logs (env (S (events w))))),
                        answered (env (S (events w))) w1)
             end
    end.
Proof.
  intros Hreg.
  cbv [get_result and_then try_except get_world reload status logs
         external modify ret refreshed].
  rewrite Hreg.
  destruct (r_error (env (events w))) as [e|]; simpl; [reflexivity|].
  rewrite lookup_insert_eq. simpl.
  destruct (String.eqb (r_status (env (events w))) "running"); simpl; [reflexivity|].
  destruct (r_error (env (S (events w)))) as [e|]; reflexivity.
Qed.

(** [get_result] writes neither the registry nor the pool nor the daemon. *)
Lemma get_result_frame session_id w :
  let w' := snd (get_result env session_id w) in
  sessions w' = sessions w ∧ prewarmed_pool w' = prewarmed_pool w ∧
  daemon w' = daemon w ∧ files w' = files w ∧ next_cid w' = next_cid w.
Proof.
  destruct (sessions w !! session_id) as [session|] eqn:Hreg.
  - rewrite (get_result_registered _ _ _ Hreg).
    destruct (r_error (env (events w))); simpl; [done|].
    destruct (String.eqb _ _); simpl; [done|].
    destruct (r_error (env (S (events w)))); simpl; done.
  - rewrite (get_result_unknown _ _ Hreg). done.
Qed.

Lemma get_result_events_le session_id w :
  events w <= events (snd (get_result env session_id w)).
Proof.
  destruct (sessions w !! session_id) as [session|] eqn:Hreg.
  - rewrite (get_result_registered _ _ _ Hreg).
    destruct (r_error (env (events w))); simpl; [lia|].
    destruct (String.eqb _ _); simpl; [lia|].
    destruct (r_error (env (S (events w)))); simpl; lia.
  - rewrite (get_result_unknown _ _ Hreg). simpl. lia.
Qed.

(** A poll of a session whose container is reported terminated, with the
    logs readable, answers [Finished] and uses two external calls. *)
Lemma get_result_terminated session_id session w :
  sessions w !! session_id = Some session ->
  r_error (env (events w)) = None ->
  r_status (env (events w)) ≠ "running" ->
  r_error (env (S (events w))) = None ->
  fst (get_result env session_id w) = Return (Finished (r_logs (env (S (events w))))) ∧
  events (snd (get_result env session_id w)) = S (S (events w)) ∧
  sessions (snd (get_result env session_id w)) = sessions w.
Proof.
  intros Hreg Hok Hst Hlogs.
  rewrite (get_result_registered _ _ _ Hreg), Hok, Hlogs.
  apply String.eqb_neq in Hst. rewrite Hst. simpl. done.
Qed.

Lemma poll_terminated session_id session n : ∀ w,
  sessions w !! session_id = Some session ->
  reported_terminated env (events w) ->
  fst (poll env session_id n w) =
    map (λ k, Return (Finished (r_logs (env (events w + 2 * k + 1))))) (seq 0 n) ∧
  sessions (snd (poll env session_id n w)) = sessions w.
Proof.
  induction n as [|n IH]; intros w Hreg Hterm; [done|].
  destruct (Hterm (events w)) as [Hok Hst]; [lia|].
  destruct (Hterm (S (events w))) as [Hlogs _]; [lia|].
  destruct (get_result_terminated _ _ w Hreg Hok Hst Hlogs) as (Hr & Hev & Hs).
  simpl poll. destruct (get_result env session_id w) as [r w1]. simpl in Hr, Hev, Hs.
  destruct (IH w1) as [Hrs Hs'].
  { now rewrite Hs. }
  { intros k Hk. apply Hterm. lia. }
  destruct (poll env session_id n w1) as [rs w2]. simpl in *.
  split; [|congruence].
  rewrite Hr, Hrs, <- seq_shift, map_map. f_equal.
  - replace (events w + 0 + 1) with (S (events w)) by lia. reflexivity.
  - apply map_ext. intros k. rewrite Hev.
    replace (S (S (events w)) + (k + (k + 0)) + 1)
      with (events w + (S k + (S k + 0)) + 1) by lia.
    reflexivity.
Qed.

End ResultRetrieval.

(** C8: when the refresh of the bound container's status raises,
    [get_result] on a registered session answers [RetrievalError] with the
    cause, which is not [Running], and the record stays in the registry as it
    was; the pool, the cached attributes and the daemon are untouched too. *)
Theorem result_refresh_error env session_id session cause w :
  sessions w !! session_id = Some session ->
  r_error (env (events w)) = Some cause ->
  ∃ w', get_result env session_id w = (Return (RetrievalError cause), w') ∧
        RetrievalError cause ≠ Running ∧
        sessions w' = sessions w ∧
        sessions w' !! session_id = Some session ∧
        prewarmed_pool w' = prewarmed_pool w ∧
        attrs w' = attrs w ∧ daemon w' = daemon w.
Proof.
  intros Hreg Herr. exists (answered (env (events w)) w).
  rewrite (get_result_registered _ _ _ _ Hreg), Herr. simpl.
  repeat split; try done.
Qed.

Lemma result_refresh_error_witness :
  ∃ w', get_result unreachable "s1" one_session
          = (Return (RetrievalError "connection refused"), w') ∧
        RetrievalError "connection refused" ≠ Running ∧
        sessions w' = sessions one_session ∧
        sessions w' !! "s1" = Some {| container := 0; start_time := 0 |} ∧
        prewarmed_pool w' = prewarmed_pool one_session ∧
        attrs w' = attrs one_session ∧ daemon w' = daemon one_session.
Proof.
  apply (result_refresh_error unreachable "s1" {| container := 0; start_time := 0 |}
           "connection refused" one_session); vm_compute; reflexivity.
Defined.

(** C9: [get_result] leaves the registry (hence every record's binding and
    creation timestamp), the pool and the daemon as they were; and for a
    registered session whose container is reported terminated from now on,
    each of [n] successive calls answers [Finished] with the logs the daemon
    returns to it, the registry still being the same afterwards. *)
Theorem result_is_read_only env session_id w :
  (sessions (snd (get_result env session_id w)) = sessions w ∧
   prewarmed_pool (snd (get_result env session_id w)) = prewarmed_pool w ∧
   daemon (snd (get_result env session_id w)) = daemon w) ∧
  ∀ n session,
    sessions w !! session_id = Some session ->
    reported_terminated env (events w) ->
    fst (poll env session_id n w) =
      map (λ k, Return (Finished (r_logs (env (events w + 2 * k + 1))))) (seq 0 n) ∧
    sessions (snd (poll env session_id n w)) = sessions w.
Proof.
  split.
  - destruct (get_result_frame env session_id w) as (? & ? & ? & _). done.
  - intros n session. apply poll_terminated.
Qed.

Lemma result_is_read_only_witness :
  fst (poll exited "s1" 3 one_session)
    = [Return (Finished "done"); Return (Finished "done"); Return (Finished "done")] ∧
  sessions (snd (poll exited "s1" 3 one_session)) = sessions one_session.
Proof.
  destruct (result_is_read_only exited "s1" one_session) as [_ H].
  apply (H 3 {| container := 0; start_time := 0 |}).
  - vm_compute. reflexivity.
  - intros k _. split; [reflexivity | discriminate].
Defined.

(** C10: on a registered session whose status was refreshed, the answer is
    [Running] exactly when the refreshed status is the string "running"; any
    other status, "created" included, is never answered with [Running], and
    is answered with [Finished] and the logs when the logs can be read. *)
Theorem result_running_only_when_running env session_id session w :
  sessions w !! session_id = Some session ->
  r_error (env (events w)) = None ->
  (r_status (env (events w)) = "running" ->
   fst (get_result env session_id w) = Return Running) ∧
  (r_status (env (events w)) ≠ "running" ->
   fst (get_result env session_id w) ≠ Return Running ∧
   (r_error (env (S (events w))) = None ->
    fst (get_result env session_id w)
      = Return (Finished (r_logs (env (S (events w))))))).
Proof.
  intros Hreg Hok. rewrite (get_result_registered _ _ _ _ Hreg), Hok.
  split; intros Hst.
  - rewrite Hst. reflexivity.
  - apply String.eqb_neq in Hst. rewrite Hst.
    destruct (r_error (env (S (events w)))) as [e|]; simpl;
      (split; [discriminate | intros H; first [discriminate H | reflexivity]]).
Qed.

Lemma result_running_only_when_running_witness :
  fst (get_result created_only "s1" one_session) = Return (Finished "") ∧
  fst (get_result quiet "s1" one_session) = Return Running.
Proof.
  split.
  - destruct (result_running_only_when_running created_only "s1"
                {| container := 0; start_time := 0 |} one_session) as [_ H];
      [vm_compute; reflexivity | reflexivity |].
    destruct H as [_ H]; [discriminate|]. apply H. reflexivity.
  - destruct (result_running_only_when_running quiet "s1"
                {| container := 0; start_time := 0 |} one_session) as [H _];
      [vm_compute; reflexivity | reflexivity |].
    apply H. reflexivity.
Defined.

(** ** Dispatch *)

Lemma set_sessions_id f w : f (sessions w) = sessions w -> set_sessions f w = w.
Proof. intros H. destruct w. unfold set_sessions. simpl in *. now rewrite H. Qed.

Lemma last_cons_is_Some {X} (x : X) l : last (x :: l) ≠ None.
Proof.
  revert x. induction l as [|y l IH]; intros x; [discriminate|].
  change (last (x :: y :: l)) with (last (y :: l)). apply IH.
Qed.

Lemma execute_code_absent env req w :
  files_get "file" (request_files req) = None ->
  execute_code env req w = (Return MissingPayload, w).
Proof. intros H. unfold execute_code. now rewrite H. Qed.

Lemma execute_code_present env req w code_file :
  files_get "file" (request_files req) = Some code_file ->
  post (execute_code env req) w (λ o _, o ≠ Return MissingPayload).
Proof.
  intros Hf. unfold execute_code. rewrite Hf. exec; discriminate.
Qed.

(** When nothing raises, a present file is dispatched, whatever it holds. *)
Lemma execute_code_faultless env req w code_file :
  faultless env ->
  files_get "file" (request_files req) = Some code_file ->
  post (execute_code env req) w
    (λ o w', o = Return (Dispatched (r_uuid (env (events w)))) ∧
             is_Some (sessions w' !! r_uuid (env (events w)))).
Proof.
  intros Hok Hf. unfold execute_code. rewrite Hf. exec;
    try match goal with
        | H : r_error (env ?k) = Some _ |- _ => rewrite (Hok k) in H; discriminate H
        end.
  - split; [reflexivity|]. simpl. rewrite lookup_insert_eq. eauto.
  - split; [reflexivity|]. simpl. rewrite lookup_insert_eq. eauto.
  - simpl in *. rewrite lookup_insert_eq in *. discriminate.
  - simpl in *. exfalso. eapply last_cons_is_Some.
    match goal with H : prewarmed_pool w = _ |- _ => rewrite <- H end. eassumption.
Qed.

(** C3, as the code has it: a request without the file part is answered
    [MissingPayload] and the world is left exactly as it was; a request that
    carries the file part, empty or not, is never answered [MissingPayload],
    and is dispatched and registered when no external call raises. *)
Theorem dispatch_missing_payload env req w :
  (files_get "file" (request_files req) = None ->
   execute_code env req w = (Return MissingPayload, w)) ∧
  (∀ code_file, files_get "file" (request_files req) = Some code_file ->
     fst (execute_code env req w) ≠ Return MissingPayload ∧
     (faultless env ->
      fst (execute_code env req w) = Return (Dispatched (r_uuid (env (events w)))) ∧
      is_Some (sessions (snd (execute_code env req w)) !! r_uuid (env (events w))))).
Proof.
  split.
  - apply execute_code_absent.
  - intros code_file Hf. split.
    + apply (execute_code_present env req w code_file Hf).
    + intros Hok. apply (execute_code_faultless env req w code_file Hok Hf).
Qed.

Lemma dispatch_missing_payload_witness :
  execute_code quiet no_upload one_session = (Return MissingPayload, one_session) ∧
  fst (execute_code quiet (upload "main.py" "") initial_world) ≠ Return MissingPayload.
Proof.
  split.
  - apply (dispatch_missing_payload quiet no_upload one_session). reflexivity.
  - eapply (dispatch_missing_payload quiet (upload "main.py" "") initial_world).
    reflexivity.
Defined.

(** C3, as stated, fails on an empty file: it is dispatched and registered. *)
Lemma dispatch_empty_file_accepted :
  fst (execute_code quiet (upload "main.py" "") initial_world) = Return (Dispatched "s1") ∧
  fst (execute_code quiet (upload "main.py" "") initial_world) ≠ Return MissingPayload ∧
  sessions (snd (execute_code quiet (upload "main.py" "") initial_world)) !! "s1"
    = Some {| container := 0; start_time := 0 |} ∧
  sessions initial_world !! "s1" = None ∧
  snd (execute_code quiet (upload "main.py" "") initial_world) ≠ initial_world.
Proof.
  assert (Hs : sessions (snd (execute_code quiet (upload "main.py" "") initial_world)) !! "s1"
               = Some {| container := 0; start_time := 0 |})
    by (vm_compute; reflexivity).
  split; [vm_compute; reflexivity|].
  split; [vm_compute; discriminate|].
  split; [exact Hs|].
  split; [reflexivity|].
  intros Heq. rewrite Heq in Hs. discriminate Hs.
Qed.

(** ** Explicit cleanup *)

Lemma cleanup_session_unknown env session_id w :
  sessions w !! session_id = None ->
  cleanup_session env session_id w = (Return SessionNotFound, w).
Proof.
  intros Hnone. cbv [cleanup_session and_then sessions_pop ret].
  rewrite Hnone. f_equal. apply set_sessions_id. now apply delete_id.
Qed.

(** The record is popped first; what follows only decides the reply. *)
Lemma cleanup_session_registered env session_id session w :
  sessions w !! session_id = Some session ->
  post (cleanup_session env session_id) w
    (λ o w',
       sessions w' = delete session_id (sessions w) ∧
       prewarmed_pool w' = prewarmed_pool w ∧
       match r_error (env (events w)), r_error (env (S (events w))) with
       | Some cause, _ => o = Return (TeardownError cause)
       | None, Some cause => o = Return (TeardownError cause)
       | None, None => o = Return CleanedUp ∧ daemon w' !! container session = None
       end).
Proof.
  intros Hreg. unfold cleanup_session. exec_step. exec_step. rewrite Hreg.
  cbv beta iota. exec; simpl in *;
    repeat match goal with
           | H : r_error _ = _ |- _ => rewrite H
           end; repeat split; try reflexivity.
  apply lookup_delete_eq.
Qed.

(** C4: [cleanup_session] on a registered session removes the record from
    the registry whether or not stopping or removing the container raises
    (the reply is then [TeardownError] with the cause), and a second call on
    the same identifier is answered [SessionNotFound] and changes nothing. *)
Theorem cleanup_removes_record env session_id session w :
  sessions w !! session_id = Some session ->
  ∃ r w',
    cleanup_session env session_id w = (Return r, w') ∧
    sessions w' = delete session_id (sessions w) ∧
    sessions w' !! session_id = None ∧
    (∀ cause, r_error (env (events w)) = Some cause -> r = TeardownError cause) ∧
    (∀ cause, r_error (env (events w)) = None ->
              r_error (env (S (events w))) = Some cause -> r = TeardownError cause) ∧
    (r_error (env (events w)) = None -> r_error (env (S (events w))) = None ->
     r = CleanedUp) ∧
    ∀ env', cleanup_session env' session_id w' = (Return SessionNotFound, w').
Proof.
  intros Hreg.
  pose proof (cleanup_session_registered env session_id session w Hreg) as H.
  unfold post in H. destruct (cleanup_session env session_id w) as [o w'].
  simpl in H. destruct H as (Hs & _ & Hr).
  assert (Hgone : sessions w' !! session_id = None)
    by (rewrite Hs; apply lookup_delete_eq).
  assert (∃ r, o = Return r) as [r ->].
  { destruct (r_error (env (events w))), (r_error (env (S (events w))));
      first [exact (ex_intro _ _ Hr) | exact (ex_intro _ _ (proj1 Hr))]. }
  exists r, w'. split; [reflexivity|]. split; [exact Hs|]. split; [exact Hgone|].
  split; [|split; [|split]].
  - intros cause Hstop. rewrite Hstop in Hr. congruence.
  - intros cause Hstop Hrm. rewrite Hstop, Hrm in Hr. congruence.
  - intros Hstop Hrm. rewrite Hstop, Hrm in Hr. destruct Hr. congruence.
  - intros env'. now apply cleanup_session_unknown.
Qed.

Lemma cleanup_removes_record_witness :
  ∃ r w',
    cleanup_session unreachable "s1" one_session = (Return r, w') ∧
    sessions w' = delete "s1" (sessions one_session) ∧
    sessions w' !! "s1" = None ∧
    (∀ cause, r_error (unreachable (events one_session)) = Some cause ->
              r = TeardownError cause) ∧
    (∀ cause, r_error (unreachable (events one_session)) = None ->
              r_error (unreachable (S (events one_session))) = Some cause ->
              r = TeardownError cause) ∧
    (r_error (unreachable (events one_session)) = None ->
     r_error (unreachable (S (events one_session))) = None -> r = CleanedUp) ∧
    ∀ env', cleanup_session env' "s1" w' = (Return SessionNotFound, w').
Proof.
  apply (cleanup_removes_record unreachable "s1" {| container := 0; start_time := 0 |}).
  vm_compute. reflexivity.
Defined.

(** ** What a dispatch starts *)

Ltac no_fault Hok :=
  try match goal with
      | H : r_error (_ ?k) = Some _ |- _ => rewrite (Hok k) in H; discriminate H
      end.

(** With the pool empty, the only containers a dispatch can add to the
    daemon are on-demand ones, and nothing is exec'd in any container. *)
Lemma execute_code_on_demand env req w :
  prewarmed_pool w = [] ->
  post (execute_code env req) w
    (λ _ w', ∀ c d, daemon w' !! c = Some d ->
                    daemon w !! c = Some d ∨
                    ∃ session_dir, d = on_demand_spec session_dir).
Proof.
  intros Hpool. unfold execute_code.
  destruct (files_get "file" (request_files req)); exec; simpl in *;
    try congruence; try (intros c d Hd; left; exact Hd).
  all: intros c d Hd; destruct (decide (c = next_cid w)) as [->|Hne];
    [rewrite lookup_insert_eq in Hd; injection Hd as <-; right; eexists; reflexivity
    |rewrite lookup_insert_ne in Hd by congruence; left; exact Hd].
Qed.

(** With a container in the pool and no external call raising, the last
    pooled container receives the upload under its own name and is told to
    run [/code/main.py], whatever the upload is called. *)
Lemma execute_code_pooled env name data w c d :
  faultless env ->
  last (prewarmed_pool w) = Some c ->
  daemon w !! c = Some d ->
  post (execute_code env (upload name data)) w
    (λ o w',
       let session_id := r_uuid (env (events w)) in
       o = Return (Dispatched session_id) ∧
       (∃ t, sessions w' !! session_id = Some {| container := c; start_time := t |}) ∧
       prewarmed_pool w' = removelast (prewarmed_pool w) ∧
       daemon w' !! c =
         Some (with_exec "python /code/main.py" true
                 (with_archive "/code"
                    [(basename (os_path_join ("/tmp/" +:+ session_id) name), data)] d))).
Proof.
  intros Hok Hlast Hd. unfold execute_code.
  change (files_get "file" (request_files (upload name data)))
    with (Some {| filename := name; content := data |}).
  cbv beta iota. exec; no_fault Hok; simpl in *.
  - match goal with H : prewarmed_pool w = [] |- _ => rewrite H in Hlast end.
    discriminate Hlast.
  - match goal with H : last _ = Some _ |- _ => rewrite Hlast in H; injection H as <- end.
    match goal with
    | H : <[_:=_]> (files w) !! _ = Some _ |- _ =>
        rewrite lookup_insert_eq in H; injection H as <-
    end.
    split; [reflexivity|]. split; [rewrite lookup_insert_eq; eauto|].
    split; [reflexivity|].
    rewrite !lookup_alter_eq, Hd. reflexivity.
  - exfalso. match goal with
    | H : <[_:=_]> (files w) !! _ = None |- _ =>
        rewrite lookup_insert_eq in H; discriminate H
    end.
  - congruence.
Qed.

Lemma poll_running env session_id session n : ∀ w,
  sessions w !! session_id = Some session ->
  (∀ k, r_error (env k) = None ∧ r_status (env k) = "running") ->
  fst (poll env session_id n w) = repeat (Return Running) n.
Proof.
  induction n as [|n IH]; intros w Hreg Henv; [reflexivity|].
  simpl. pose proof (get_result_registered env _ _ _ Hreg) as Hg.
  destruct (Henv (events w)) as [Hok Hst]. rewrite Hok, Hst in Hg. simpl in Hg.
  rewrite Hg. specialize (IH (refreshed env (container session) w) Hreg Henv).
  destruct (poll env session_id n _) as [rs w2]. simpl in *. now rewrite IH.
Qed.

(** C1, evaluated where it fails: the upload [main.py] holding [print('hi')]
    is dispatched with the pool empty.  The session is registered and bound
    to a fresh container that mounts the session directory read-only at
    [/code] and runs the standby command, but no command running the upload
    is ever issued: nothing is exec'd in the container.  With the standby
    server reported as running, every poll answers [Running]. *)
Theorem on_demand_dispatch_never_runs_payload :
  fst (execute_code quiet (upload "main.py" "print('hi')") initial_world)
    = Return (Dispatched "s1") ∧
  sessions one_session !! "s1" = Some {| container := 0; start_time := 0 |} ∧
  files one_session !! "/tmp/s1/main.py" = Some "print('hi')" ∧
  daemon one_session !! 0 = Some (on_demand_spec "/tmp/s1") ∧
  command (on_demand_spec "/tmp/s1") = ["python"; "-m"; "http.server"] ∧
  volumes (on_demand_spec "/tmp/s1")
    = [{| host_path := "/tmp/s1"; bind := "/code"; mode := "ro" |}] ∧
  execs (on_demand_spec "/tmp/s1") = [] ∧
  ∀ n, fst (poll quiet "s1" n one_session) = repeat (Return Running) n.
Proof.
  split; [vm_compute; reflexivity|].
  assert (Hs : sessions one_session !! "s1" = Some {| container := 0; start_time := 0 |})
    by (vm_compute; reflexivity).
  split; [exact Hs|].
  split; [vm_compute; reflexivity|].
  split; [vm_compute; reflexivity|].
  do 3 (split; [reflexivity|]).
  intros n. apply (poll_running quiet "s1" _ n one_session Hs).
  intros k. split; reflexivity.
Qed.

(** C2, evaluated where it fails: the upload [app.py] is dispatched with one
    container in the pool.  The file is put into the container under its own
    name, and the command exec'd there runs [/code/main.py], not the file
    that was submitted. *)
Theorem pooled_dispatch_runs_fixed_name :
  fst (execute_code quiet (upload "app.py" "print('hi')") one_pooled)
    = Return (Dispatched "s1") ∧
  prewarmed_pool one_pooled = [0] ∧
  prewarmed_pool (snd (execute_code quiet (upload "app.py" "print('hi')") one_pooled)) = [] ∧
  sessions (snd (execute_code quiet (upload "app.py" "print('hi')") one_pooled)) !! "s1"
    = Some {| container := 0; start_time := 0 |} ∧
  daemon (snd (execute_code quiet (upload "app.py" "print('hi')") one_pooled)) !! 0
    = Some (with_exec "python /code/main.py" true
              (with_archive "/code" [("app.py", "print('hi')")] prewarmed_spec)) ∧
  execs (with_exec "python /code/main.py" true
           (with_archive "/code" [("app.py", "print('hi')")] prewarmed_spec))
    = [("python /code/main.py", true)] ∧
  "python /code/main.py" ≠ "python /code/app.py".
Proof.
  repeat (split; [vm_compute; reflexivity|]). discriminate.
Qed.

(** ** Shutdown drain *)

Lemma drain_spec env pool : ∀ w,
  post (drain env pool) w
    (λ o w',
       o = Return tt ∧
       sessions w' = sessions w ∧
       prewarmed_pool w' = prewarmed_pool w ∧
       next_cid w' = next_cid w ∧
       (∀ c, c ∉ pool -> daemon w' !! c = daemon w !! c) ∧
       (faultless env -> ∀ c, c ∈ pool -> daemon w' !! c = None)).
Proof.
  induction pool as [|c rest IH]; intros w.
  - simpl. apply post_ret. repeat split; try reflexivity.
    intros _ c Hc. inversion Hc.
  - simpl drain.
    assert (Hrest : ∀ w1,
      sessions w1 = sessions w -> prewarmed_pool w1 = prewarmed_pool w ->
      next_cid w1 = next_cid w ->
      (∀ c', c' ≠ c -> daemon w1 !! c' = daemon w !! c') ->
      (faultless env -> daemon w1 !! c = None) ->
      post (drain env rest) w1
        (λ o w',
           o = Return tt ∧ sessions w' = sessions w ∧
           prewarmed_pool w' = prewarmed_pool w ∧ next_cid w' = next_cid w ∧
           (∀ c0, c0 ∉ c :: rest -> daemon w' !! c0 = daemon w !! c0) ∧
           (faultless env -> ∀ c0, c0 ∈ c :: rest -> daemon w' !! c0 = None))).
    { intros w1 Hs Hp Hn Hother Hgone.
      eapply post_weaken; [apply IH|]. simpl.
      intros o w' (-> & Hs' & Hp' & Hn' & Hout & Hin).
      split; [reflexivity|]. split; [congruence|]. split; [congruence|].
      split; [congruence|]. split.
      - intros c0 Hc0. rewrite not_elem_of_cons in Hc0. destruct Hc0 as [Hne Hc0].
        rewrite (Hout c0 Hc0). now apply Hother.
      - intros Hok c0 Hc0. destruct (decide (c0 ∈ rest)) as [Hr|Hr].
        + now apply Hin.
        + rewrite (Hout c0 Hr). apply elem_of_cons in Hc0.
          destruct Hc0 as [->|Hc0]; [now apply Hgone | contradiction]. }
    exec; apply Hrest; simpl; try reflexivity;
      try (intros Hok; match goal with
                       | H : r_error (env ?k) = Some _ |- _ =>
                           rewrite (Hok k) in H; discriminate H
                       end).
    + intros c' Hne. now rewrite lookup_alter_ne by congruence.
    + intros c' Hne. rewrite lookup_delete_ne by congruence.
      now rewrite lookup_alter_ne by congruence.
    + intros _. apply lookup_delete_eq.
Qed.

Lemma drain_cons env c rest w :
  drain env (c :: rest) w
  = drain env rest (snd (try_except (perform stop env c then remove env c)
                                    (fun _ => ret tt) w)).
Proof.
  simpl drain. unfold and_then at 1.
  assert (Hr : fst (try_except (perform stop env c then remove env c)
                               (fun _ => ret tt) w) = Return tt).
  { change (post (try_except (perform stop env c then remove env c) (fun _ => ret tt)) w
              (λ o _, o = Return tt)).
    exec; reflexivity. }
  destruct (try_except _ _ w) as [o w1]. simpl in *. now rewrite Hr.
Qed.






(** ** The pool and the registry when the handlers run one at a time *)

Section Invariant.

Implicit Types (ss : gmap string session) (pool : list cid)
  (dm : gmap cid dcontainer) (next c : cid).

Lemma inv_on_initial : inv_on ∅ [] ∅ 0.
Proof.
  split.
  - intros c Hc. inversion Hc.
  - intros c Hc. inversion Hc.
  - constructor.
  - intros c Hc. inversion Hc.
  - intros c (session_id & session & Hl & _). rewrite lookup_empty in Hl. discriminate.
Qed.

Lemma bound_in_delete ss session_id c :
  bound_in (delete session_id ss) c -> bound_in ss c.
Proof.
  intros (k & session & Hl & Hc). exists k, session. split; [|exact Hc].
  destruct (decide (session_id = k)) as [->|Hne].
  - rewrite lookup_delete_eq in Hl. discriminate.
  - now rewrite lookup_delete_ne in Hl.
Qed.

Lemma bound_in_insert ss session_id session c :
  bound_in (<[session_id:=session]> ss) c -> c = container session ∨ bound_in ss c.
Proof.
  intros (k & session' & Hl & Hc).
  destruct (decide (session_id = k)) as [->|Hne].
  - rewrite lookup_insert_eq in Hl. injection Hl as <-. now left.
  - rewrite lookup_insert_ne in Hl by exact Hne. right. now exists k, session'.
Qed.

Lemma inv_on_unbind ss pool dm next session_id :
  inv_on ss pool dm next -> inv_on (delete session_id ss) pool dm next.
Proof.
  intros [Hex Hidle Hnd Hpk Hbk]. split; auto.
  - intros c Hc Hb. apply (Hex c Hc). eapply bound_in_delete, Hb.
  - intros c Hb. apply Hbk. eapply bound_in_delete, Hb.
Qed.

Lemma inv_on_bind ss pool dm next session_id c t :
  inv_on ss pool dm next -> c ∉ pool -> c < next ->
  inv_on (<[session_id:={| container := c; start_time := t |}]> ss) pool dm next.
Proof.
  intros [Hex Hidle Hnd Hpk Hbk] Hout Hlt. split; auto.
  - intros c' Hc' Hb. apply bound_in_insert in Hb. simpl in Hb.
    destruct Hb as [->|Hb]; [contradiction | exact (Hex c' Hc' Hb)].
  - intros c' Hb. apply bound_in_insert in Hb. simpl in Hb.
    destruct Hb as [->|Hb]; [exact Hlt | exact (Hbk c' Hb)].
Qed.

Lemma removelast_last pool c : last pool = Some c -> pool = removelast pool ++ [c].
Proof.
  intros Hlast. destruct (decide (pool = [])) as [->|Hne]; [discriminate|].
  rewrite (app_removelast_last c Hne) at 1. f_equal. f_equal.
  clear Hne. induction pool as [|x [|y l] IH]; [discriminate| |].
  - simpl in *. congruence.
  - apply IH. exact Hlast.
Qed.

Lemma inv_on_take ss pool dm next c :
  inv_on ss pool dm next -> last pool = Some c ->
  inv_on ss (removelast pool) dm next ∧ (c ∉ removelast pool) ∧ (c < next).
Proof.
  intros [Hex Hidle Hnd Hpk Hbk] Hlast.
  pose proof (removelast_last pool c Hlast) as Hsplit.
  assert (Hsub : ∀ x, x ∈ removelast pool -> x ∈ pool).
  { intros x Hx. rewrite Hsplit. apply elem_of_app. now left. }
  rewrite Hsplit in Hnd. apply NoDup_app in Hnd. destruct Hnd as (Hnd & Hdisj & _).
  split; [split; auto|split].
  - intros Hin. apply (Hdisj c Hin). apply list_elem_of_here.
  - apply Hpk. rewrite Hsplit. apply elem_of_app. right. apply list_elem_of_here.
Qed.

Lemma inv_on_alter ss pool dm next c f :
  inv_on ss pool dm next -> c ∉ pool -> inv_on ss pool (alter f c dm) next.
Proof.
  intros [Hex Hidle Hnd Hpk Hbk] Hout. split; auto.
  intros c' Hc'. unfold idle_in. rewrite lookup_alter_ne; [now apply Hidle|].
  intros ->. contradiction.
Qed.

Lemma inv_on_delete ss pool dm next c :
  inv_on ss pool dm next -> c ∉ pool -> inv_on ss pool (delete c dm) next.
Proof.
  intros [Hex Hidle Hnd Hpk Hbk] Hout. split; auto.
  intros c' Hc'. unfold idle_in. rewrite lookup_delete_ne; [now apply Hidle|].
  intros ->. contradiction.
Qed.

Lemma inv_on_fresh_out ss pool dm next :
  inv_on ss pool dm next -> next ∉ pool.
Proof. intros [_ _ _ Hpk _] Hin. specialize (Hpk next Hin). lia. Qed.

Lemma inv_on_create ss pool dm next d :
  inv_on ss pool dm next -> inv_on ss pool (<[next:=d]> dm) (S next).
Proof.
  intros Hinv. pose proof (inv_on_fresh_out _ _ _ _ Hinv) as Hout.
  destruct Hinv as [Hex Hidle Hnd Hpk Hbk]. split; auto.
  - intros c Hc. unfold idle_in. rewrite lookup_insert_ne; [now apply Hidle|].
    intros ->. contradiction.
  - intros c Hc. specialize (Hpk c Hc). lia.
  - intros c Hb. specialize (Hbk c Hb). lia.
Qed.

Lemma inv_on_provision ss pool dm next :
  inv_on ss pool dm next ->
  inv_on ss (pool ++ [next]) (<[next:=prewarmed_spec]> dm) (S next).
Proof.
  intros Hinv. pose proof (inv_on_fresh_out _ _ _ _ Hinv) as Hout.
  destruct Hinv as [Hex Hidle Hnd Hpk Hbk]. split.
  - intros c Hc Hb. apply elem_of_app in Hc. destruct Hc as [Hc|Hc].
    + exact (Hex c Hc Hb).
    + apply list_elem_of_singleton in Hc. subst c. specialize (Hbk next Hb). lia.
  - intros c Hc. unfold idle_in. apply elem_of_app in Hc. destruct Hc as [Hc|Hc].
    + rewrite lookup_insert_ne; [now apply Hidle|]. intros ->. contradiction.
    + apply list_elem_of_singleton in Hc. subst c. apply lookup_insert_eq.
  - apply NoDup_app. split; [exact Hnd|]. split; [|apply NoDup_singleton].
    intros c Hc Hc'. apply list_elem_of_singleton in Hc'. subst c. contradiction.
  - intros c Hc. apply elem_of_app in Hc. destruct Hc as [Hc|Hc].
    + specialize (Hpk c Hc). lia.
    + apply list_elem_of_singleton in Hc. subst c. lia.
  - intros c Hb. specialize (Hbk c Hb). lia.
Qed.

Lemma inv_on_clear ss pool dm dm' next :
  inv_on ss pool dm next -> inv_on ss [] dm' next.
Proof.
  intros [Hex Hidle Hnd Hpk Hbk]. split; auto.
  - intros c Hc. inversion Hc.
  - intros c Hc. inversion Hc.
  - constructor.
  - intros c Hc. inversion Hc.
Qed.

Lemma inv_on_bound_out ss pool dm next session_id session :
  inv_on ss pool dm next -> ss !! session_id = Some session ->
  container session ∉ pool.
Proof.
  intros [Hex _ _ _ _] Hl Hin. apply (Hex _ Hin). now exists session_id, session.
Qed.

End Invariant.

(** Close a goal [inv w'] for a world [w'] built from one satisfying [inv]. *)
Ltac inv_auto :=
  unfold inv in *; simpl in *;
  repeat match goal with
         | H : inv_on ?ss ?pool ?dm ?n, Hl : last ?pool = Some ?c |- _ =>
             destruct (inv_on_take ss pool dm n c H Hl) as (? & ? & ?); clear Hl
         end;
  repeat first
    [ assumption
    | apply inv_on_bind
    | apply inv_on_unbind
    | apply inv_on_alter
    | apply inv_on_delete
    | apply inv_on_provision
    | apply inv_on_create
    | (eapply inv_on_fresh_out; eassumption)
    | (eapply inv_on_bound_out; eassumption)
    | lia ].

Lemma execute_code_inv env req w :
  inv w -> post (execute_code env req) w (λ _ w', inv w').
Proof.
  intros Hinv. unfold execute_code.
  destruct (files_get "file" (request_files req)); exec; inv_auto.
Qed.

Lemma get_result_inv env session_id w :
  inv w -> post (get_result env session_id) w (λ _ w', inv w').
Proof.
  intros Hinv. unfold post, inv.
  destruct (get_result_frame env session_id w) as (-> & -> & -> & _ & ->).
  exact Hinv.
Qed.

Lemma cleanup_session_inv env session_id w :
  inv w -> post (cleanup_session env session_id) w (λ _ w', inv w').
Proof.
  intros Hinv. unfold cleanup_session. exec_step. exec_step.
  destruct (sessions w !! session_id) as [session|] eqn:Hreg; exec; inv_auto.
Qed.

Lemma create_prewarmed_container_inv env w :
  inv w -> post (create_prewarmed_container env) w (λ _ w', inv w').
Proof. intros Hinv. exec; inv_auto. Qed.

Lemma expire_sessions_inv env snapshot : ∀ w,
  inv w ->
  (∀ session_id session, (session_id, session) ∈ snapshot ->
                         container session ∉ prewarmed_pool w) ->
  post (expire_sessions env snapshot) w
    (λ _ w', inv w' ∧ prewarmed_pool w' = prewarmed_pool w).
Proof.
  induction snapshot as [|[session_id session] rest IH]; intros w Hinv Hout.
  - apply post_ret. auto.
  - simpl expire_sessions.
    assert (Hc : container session ∉ prewarmed_pool w)
      by (apply (Hout session_id); apply list_elem_of_here).
    assert (Hrest : ∀ w1, inv w1 -> prewarmed_pool w1 = prewarmed_pool w ->
              post (expire_sessions env rest) w1
                (λ _ w', inv w' ∧ prewarmed_pool w' = prewarmed_pool w)).
    { intros w1 Hinv1 Hp. eapply post_weaken.
      - apply IH; [exact Hinv1|]. intros k s Hk. rewrite Hp.
        apply (Hout k). now apply list_elem_of_further.
      - simpl. intros _ w' [? ?]. split; congruence. }
    exec; apply Hrest; try reflexivity; inv_auto.
Qed.

Lemma sweep_inv env w : inv w -> post (sweep env) w (λ _ w', inv w').
Proof.
  intros Hinv. unfold sweep. exec_step. exec_step. exec_step.
  eapply post_weaken.
  - apply expire_sessions_inv; [exact Hinv|].
    intros session_id session Hin. apply elem_of_map_to_list in Hin.
    eapply inv_on_bound_out; eassumption.
  - intros [[]|e] w1 [Hinv1 _]; cbv beta iota; exec; inv_auto.
Qed.

Lemma shutdown_cleanup_inv env w :
  inv w -> post (shutdown_cleanup env) w (λ _ w', inv w').
Proof.
  intros Hinv. unfold shutdown_cleanup. exec_step. exec_step. exec_step.
  eapply post_weaken; [apply drain_spec|]. simpl.
  intros o w' (-> & Hs & _ & Hn & _). exec_step. unfold inv in *. simpl.
  rewrite Hs, Hn. eapply inv_on_clear, Hinv.
Qed.

Lemma initialize_prewarmed_pool_inv env fuel : ∀ w o w',
  inv w -> initialize_prewarmed_pool env fuel w = Some (o, w') -> inv w'.
Proof.
  induction fuel as [|fuel IH]; intros w o w' Hinv Hrun; [discriminate|].
  simpl in Hrun.
  destruct (Nat.ltb (length (prewarmed_pool w)) PREWARMED_POOL_SIZE).
  - pose proof (create_prewarmed_container_inv env w Hinv) as Hcreate. unfold post in Hcreate.
    destruct (create_prewarmed_container env w) as [[[]|e] w1]; cbn [snd] in Hcreate.
    + exact (IH _ _ _ Hcreate Hrun).
    + injection Hrun as _ <-. exact Hcreate.
  - injection Hrun as _ <-. exact Hinv.
Qed.

(** With every handler run to its end before the next one starts, the
    invariant holds between any two of them. *)
Lemma runs_inv env w : runs env w -> inv w.
Proof.
  induction 1 as [|a w _ _ IH|fuel w o w' _ IH Hrun].
  - apply inv_on_initial.
  - destruct a; simpl.
    + apply (execute_code_inv env req w IH).
    + apply (get_result_inv env session_id w IH).
    + apply (cleanup_session_inv env session_id w IH).
    + apply (sweep_inv env w IH).
    + apply (create_prewarmed_container_inv env w IH).
    + apply (shutdown_cleanup_inv env w IH).
    + exact IH.
  - exact (initialize_prewarmed_pool_inv env fuel w o w' IH Hrun).
Qed.

(** ** The sweeper *)


Lemma only_removed_refl w : only_removed w w.
Proof. intros k. now right. Qed.

Lemma only_removed_trans w1 w2 w3 :
  only_removed w1 w2 -> only_removed w2 w3 -> only_removed w1 w3.
Proof.
  intros H12 H23 k. destruct (H23 k) as [H|H]; [now left|].
  rewrite H. apply H12.
Qed.

Lemma only_removed_gone w w' k :
  only_removed w w' -> sessions w !! k = None -> sessions w' !! k = None.
Proof. intros H Hk. destruct (H k) as [Hn|He]; congruence. Qed.

(** Bring what is known about the durations of the calls into the context. *)
Ltac durations env H :=
  repeat match goal with
         | |- context [r_elapsed (env ?k)] =>
             lazymatch goal with
             | _ : context [r_elapsed (env k)] |- _ => fail
             | _ => pose proof (H k)
             end
         end.

Lemma expire_sessions_spec env snapshot : ∀ w,
  post (expire_sessions env snapshot) w
    (λ o w',
       o = Return tt ∧
       only_removed w w' ∧
       (monotone env -> (clock w <= clock w')%Q) ∧
       (instantaneous env -> (clock w' == clock w)%Q) ∧
       (monotone env -> ∀ session_id session,
          (session_id, session) ∈ snapshot -> expired (clock w) session ->
          sessions w' !! session_id = None)).
Proof.
  induction snapshot as [|[session_id session] rest IH]; intros w.
  - apply post_ret. split; [reflexivity|]. split; [apply only_removed_refl|].
    split; [intros _; lra|]. split; [intros _; lra|].
    intros _ k s Hin. inversion Hin.
  - simpl expire_sessions.
    assert (Hrest : ∀ w1,
      only_removed w w1 ->
      (monotone env -> (clock w <= clock w1)%Q) ->
      (instantaneous env -> (clock w1 == clock w)%Q) ->
      (monotone env -> expired (clock w) session -> sessions w1 !! session_id = None) ->
      post (expire_sessions env rest) w1
        (λ o w',
           o = Return tt ∧ only_removed w w' ∧
           (monotone env -> (clock w <= clock w')%Q) ∧
           (instantaneous env -> (clock w' == clock w)%Q) ∧
           (monotone env -> ∀ k s,
              (k, s) ∈ (session_id, session) :: rest -> expired (clock w) s ->
              sessions w' !! k = None))).
    { intros w1 Hrem Hle Heq Hhead. eapply post_weaken; [apply IH|]. simpl.
      intros o w' (-> & Hrem' & Hle' & Heq' & Hexp').
      split; [reflexivity|]. split; [eapply only_removed_trans; eassumption|].
      split; [intros Hm; specialize (Hle Hm); specialize (Hle' Hm); lra|].
      split; [intros Hi; specialize (Heq Hi); specialize (Heq' Hi); lra|].
      intros Hm k s Hin Hks. apply elem_of_cons in Hin. destruct Hin as [Hin|Hin].
      - injection Hin as -> ->. eapply only_removed_gone; [exact Hrem'|]. now apply Hhead.
      - apply (Hexp' Hm k s Hin). unfold expired in *. specialize (Hle Hm). lra. }
    exec; apply Hrest; simpl;
      try (intros k; destruct (decide (session_id = k)) as [->|Hne];
           [left; apply lookup_delete_eq | right; now apply lookup_delete_ne]);
      try apply only_removed_refl;
      try (intros Hm; durations env Hm; lra);
      try (intros _ _; apply lookup_delete_eq).
    intros _ Hexp. unfold expired in Hexp. lra.
Qed.

Lemma create_prewarmed_container_spec env w :
  post (create_prewarmed_container env) w
    (λ o w',
       o = Return tt ∧ sessions w' = sessions w ∧
       (monotone env -> (clock w <= clock w')%Q) ∧
       (instantaneous env -> (clock w' == clock w)%Q)).
Proof.
  exec; simpl; (split; [reflexivity|]); (split; [reflexivity|]);
    split; intros Hd; durations env Hd; lra.
Qed.

Lemma sweep_spec env w :
  post (sweep env) w
    (λ o w',
       o = Return tt ∧
       only_removed w w' ∧
       (instantaneous env -> (clock w' == clock w + SWEEP_SLEEP)%Q) ∧
       (monotone env -> ∀ session_id session,
          sessions w !! session_id = Some session -> expired (clock w) session ->
          sessions w' !! session_id = None)).
Proof.
  unfold sweep. exec_step. exec_step. exec_step.
  eapply post_weaken; [apply expire_sessions_spec|]. simpl.
  intros o w1 (-> & Hrem & _ & Heq & Hexp). exec_step. exec_step. exec_step.
  assert (Hend : ∀ w2, sessions w2 = sessions w1 ->
            (instantaneous env -> (clock w2 == clock w1)%Q) ->
            post (time_sleep SWEEP_SLEEP) w2
              (λ o w',
                 o = Return tt ∧ only_removed w w' ∧
                 (instantaneous env -> (clock w' == clock w + SWEEP_SLEEP)%Q) ∧
                 (monotone env -> ∀ session_id session,
                    sessions w !! session_id = Some session ->
                    expired (clock w) session -> sessions w' !! session_id = None))).
  { intros w2 Hs Hc. unfold time_sleep. apply post_modify. simpl.
    split; [reflexivity|]. split; [|split].
    - intros k. simpl. rewrite Hs. apply Hrem.
    - intros Hi. specialize (Heq Hi). specialize (Hc Hi). lra.
    - intros Hm k s Hk Hks. simpl. rewrite Hs. apply (Hexp Hm k s); [|exact Hks].
      now apply elem_of_map_to_list. }
  destruct (Nat.ltb (length (prewarmed_pool w1)) PREWARMED_POOL_SIZE).
  - eapply post_weaken; [apply create_prewarmed_container_spec|]. simpl.
    intros o w2 (-> & Hs & _ & Hc). now apply Hend.
  - apply post_ret. apply Hend; [reflexivity|]. intros _. lra.
Qed.

Lemma sweep_returns env w : fst (sweep env w) = Return tt.
Proof. apply (sweep_spec env w). Qed.

Lemma cleanup_expired_sessions_S env n w :
  snd (cleanup_expired_sessions env (S n) w)
  = snd (cleanup_expired_sessions env n (snd (sweep env w))).
Proof.
  simpl. unfold and_then. pose proof (sweep_returns env w) as Hr.
  destruct (sweep env w) as [o w1]. simpl in *. now rewrite Hr.
Qed.

Lemma cleanup_expired_sessions_returns env n : ∀ w,
  fst (cleanup_expired_sessions env n w) = Return tt.
Proof.
  induction n as [|n IH]; intros w; [reflexivity|].
  simpl. unfold and_then. pose proof (sweep_returns env w) as Hr.
  destruct (sweep env w) as [o w1]. simpl in *. rewrite Hr. apply IH.
Qed.






(** *** How long a pass takes *)



Lemma total_time_instantaneous env : instantaneous env -> ∀ b, (total_time env b == 0)%Q.
Proof.
  intros Hinst. induction b as [|b IH]; simpl; [lra|]. specialize (Hinst b). lra.
Qed.









(** * Further properties of the handlers *)

(** ** Unknown identifiers *)

(** X1: on an identifier that is not in the registry, [get_result] and
    [cleanup_session] both answer [SessionNotFound] and leave the world as it
    was, under any environment: no external call is made. *)
Theorem unknown_session_not_found env session_id w :
  sessions w !! session_id = None ->
  get_result env session_id w = (Return SessionNotFound, w) ∧
  cleanup_session env session_id w = (Return SessionNotFound, w).
Proof.
  intros Hnone. split.
  - now apply get_result_unknown.
  - now apply cleanup_session_unknown.
Qed.

Lemma unknown_session_not_found_witness :
  get_result unreachable "s2" one_session = (Return SessionNotFound, one_session) ∧
  cleanup_session unreachable "s2" one_session = (Return SessionNotFound, one_session).
Proof.
  apply (unknown_session_not_found unreachable "s2" one_session).
  vm_compute. reflexivity.
Defined.

(** ** What a dispatch leaves behind *)

Lemma execute_code_outcome env req w :
  post (execute_code env req) w
    (λ o w',
       (∀ session_id, o = Return (Dispatched session_id) ->
          session_id = r_uuid (env (events w)) ∧
          ∃ c, sessions w' = <[session_id:={| container := c; start_time := clock w' |}]> (sessions w) ∧
               ((prewarmed_pool w = [] ∧ c = next_cid w ∧ prewarmed_pool w' = [] ∧
                 daemon w' !! c = Some (on_demand_spec ("/tmp/" +:+ session_id))) ∨
                (last (prewarmed_pool w) = Some c ∧
                 prewarmed_pool w' = removelast (prewarmed_pool w)))) ∧
       ((∀ session_id, o ≠ Return (Dispatched session_id)) -> sessions w' = sessions w) ∧
       (prewarmed_pool w' = prewarmed_pool w ∨
        prewarmed_pool w' = removelast (prewarmed_pool w))).
Proof.
  unfold execute_code.
  destruct (files_get "file" (request_files req)); exec; simpl in *;
    (split; [intros session_id Hd; try discriminate Hd|split; [intros Hnot|]]);
    try reflexivity; try (left; reflexivity); try (right; reflexivity);
    try (exfalso; eapply Hnot; reflexivity).
  - injection Hd as <-. split; [reflexivity|]. eexists. split; [reflexivity|].
    left. repeat split; try assumption. apply lookup_insert_eq.
  - injection Hd as <-. split; [reflexivity|]. eexists. split; [reflexivity|].
    right. split; [assumption | reflexivity].
Qed.

(** X2: a dispatch that answers with a session identifier has registered
    exactly that identifier -- the uuid drawn at the start of the call --
    with the time at the end of the call, bound to one container: the fresh
    on-demand one if the pool was empty, otherwise the last container of the
    pool, which has been taken out of the pool. *)
Theorem dispatch_success_registers env req w session_id :
  fst (execute_code env req w) = Return (Dispatched session_id) ->
  session_id = r_uuid (env (events w)) ∧
  ∃ c, sessions (snd (execute_code env req w)) !! session_id
         = Some {| container := c; start_time := clock (snd (execute_code env req w)) |} ∧
       ((prewarmed_pool w = [] ∧ c = next_cid w ∧
         prewarmed_pool (snd (execute_code env req w)) = [] ∧
         daemon (snd (execute_code env req w)) !! c
           = Some (on_demand_spec ("/tmp/" +:+ session_id))) ∨
        (last (prewarmed_pool w) = Some c ∧
         prewarmed_pool (snd (execute_code env req w)) = removelast (prewarmed_pool w))).
Proof.
  intros Hd. destruct (execute_code_outcome env req w) as (Hok & _ & _).
  destruct (Hok session_id Hd) as (Hid & c & Hs & Hc).
  split; [exact Hid|]. exists c. split; [|exact Hc].
  rewrite Hs. apply lookup_insert_eq.
Qed.

Lemma dispatch_success_registers_witness :
  "s1" = r_uuid (quiet (events one_pooled)) ∧
  ∃ c, sessions (snd (execute_code quiet (upload "app.py" "x") one_pooled)) !! "s1"
         = Some {| container := c;
                   start_time := clock (snd (execute_code quiet (upload "app.py" "x") one_pooled)) |} ∧
       ((prewarmed_pool one_pooled = [] ∧ c = next_cid one_pooled ∧
         prewarmed_pool (snd (execute_code quiet (upload "app.py" "x") one_pooled)) = [] ∧
         daemon (snd (execute_code quiet (upload "app.py" "x") one_pooled)) !! c
           = Some (on_demand_spec ("/tmp/" +:+ "s1"))) ∨
        (last (prewarmed_pool one_pooled) = Some c ∧
         prewarmed_pool (snd (execute_code quiet (upload "app.py" "x") one_pooled))
           = removelast (prewarmed_pool one_pooled))).
Proof.
  apply (dispatch_success_registers quiet (upload "app.py" "x") one_pooled "s1").
  vm_compute. reflexivity.
Defined.

(** X3: a dispatch that does not answer with a session identifier -- because
    the file part is missing, because creating the directory or saving the
    upload raises, or because the runtime raises inside the [try] -- leaves
    the registry exactly as it was: no partial record is ever inserted. *)
Theorem dispatch_failure_leaves_registry env req w :
  (∀ session_id, fst (execute_code env req w) ≠ Return (Dispatched session_id)) ->
  sessions (snd (execute_code env req w)) = sessions w.
Proof.
  intros Hnot. destruct (execute_code_outcome env req w) as (_ & Hfail & _).
  exact (Hfail Hnot).
Qed.

Lemma dispatch_failure_leaves_registry_witness :
  sessions (snd (execute_code unreachable (upload "main.py" "x") one_session))
  = sessions one_session.
Proof.
  apply (dispatch_failure_leaves_registry unreachable (upload "main.py" "x") one_session).
  intros session_id. vm_compute. discriminate.
Defined.

(** X4: when a container is taken from the pool and putting the archive
    into it raises, the dispatch answers [DispatchFailure] with the cause;
    the container has left the pool, no record binds it, and the daemon still
    holds it as before: it is not put back and not torn down. *)
Theorem dispatch_failure_drops_container env name data w c cause :
  last (prewarmed_pool w) = Some c ->
  r_error (env (S (events w))) = None ->
  r_error (env (S (S (events w)))) = None ->
  r_error (env (S (S (S (events w))))) = None ->
  r_error (env (S (S (S (S (events w)))))) = Some cause ->
  fst (execute_code env (upload name data) w) = Return (DispatchFailure cause) ∧
  prewarmed_pool (snd (execute_code env (upload name data) w))
    = removelast (prewarmed_pool w) ∧
  sessions (snd (execute_code env (upload name data) w)) = sessions w ∧
  daemon (snd (execute_code env (upload name data) w)) = daemon w.
Proof.
  intros Hlast H1 H2 H3 H4.
  change (post (execute_code env (upload name data)) w
            (λ o w', o = Return (DispatchFailure cause) ∧
                     prewarmed_pool w' = removelast (prewarmed_pool w) ∧
                     sessions w' = sessions w ∧ daemon w' = daemon w)).
  unfold execute_code.
  change (files_get "file" (request_files (upload name data)))
    with (Some {| filename := name; content := data |}).
  cbv beta iota. exec; simpl in *; try congruence.
  - match goal with H : prewarmed_pool w = [] |- _ => rewrite H in Hlast end.
    discriminate Hlast.
  - repeat split. congruence.
  - exfalso. match goal with
    | H : <[_:=_]> (files w) !! _ = None |- _ =>
        rewrite lookup_insert_eq in H; discriminate H
    end.
Qed.

Lemma dispatch_failure_drops_container_witness :
  fst (execute_code (fails_at 5) (upload "main.py" "x") one_pooled)
    = Return (DispatchFailure "boom") ∧
  prewarmed_pool (snd (execute_code (fails_at 5) (upload "main.py" "x") one_pooled))
    = removelast (prewarmed_pool one_pooled) ∧
  sessions (snd (execute_code (fails_at 5) (upload "main.py" "x") one_pooled))
    = sessions one_pooled ∧
  daemon (snd (execute_code (fails_at 5) (upload "main.py" "x") one_pooled))
    = daemon one_pooled.
Proof.
  apply (dispatch_failure_drops_container (fails_at 5) "main.py" "x" one_pooled 0 "boom");
    reflexivity.
Defined.

(** ** Provisioning *)

(** X5: [create_prewarmed_container] never raises.  When the runtime call
    succeeds, the new container gets the next identity of the daemon, is held
    there as provisioned and is appended at the end of the pool; when the
    call raises, the pool, the daemon and the registry are as they were. *)
Theorem provision_appends_or_skips env w :
  fst (create_prewarmed_container env w) = Return tt ∧
  sessions (snd (create_prewarmed_container env w)) = sessions w ∧
  (r_error (env (events w)) = None ->
   prewarmed_pool (snd (create_prewarmed_container env w))
     = prewarmed_pool w ++ [next_cid w] ∧
   daemon (snd (create_prewarmed_container env w))
     = <[next_cid w:=prewarmed_spec]> (daemon w) ∧
   next_cid (snd (create_prewarmed_container env w)) = S (next_cid w)) ∧
  (r_error (env (events w)) ≠ None ->
   prewarmed_pool (snd (create_prewarmed_container env w)) = prewarmed_pool w ∧
   daemon (snd (create_prewarmed_container env w)) = daemon w ∧
   next_cid (snd (create_prewarmed_container env w)) = next_cid w).
Proof.
  change (post (create_prewarmed_container env) w
            (λ o w',
               o = Return tt ∧ sessions w' = sessions w ∧
               (r_error (env (events w)) = None ->
                prewarmed_pool w' = prewarmed_pool w ++ [next_cid w] ∧
                daemon w' = <[next_cid w:=prewarmed_spec]> (daemon w) ∧
                next_cid w' = S (next_cid w)) ∧
               (r_error (env (events w)) ≠ None ->
                prewarmed_pool w' = prewarmed_pool w ∧ daemon w' = daemon w ∧
                next_cid w' = next_cid w))).
  exec; simpl; (split; [reflexivity|]); (split; [reflexivity|]); split;
    intros Hcase; try congruence; repeat split.
Qed.

Lemma provision_appends_or_skips_witness :
  prewarmed_pool (snd (create_prewarmed_container quiet one_pooled)) = [0; 1] ∧
  prewarmed_pool (snd (create_prewarmed_container unreachable one_pooled)) = [0].
Proof.
  split.
  - destruct (provision_appends_or_skips quiet one_pooled) as (_ & _ & H & _).
    destruct H as (H & _); [reflexivity|]. exact H.
  - destruct (provision_appends_or_skips unreachable one_pooled) as (_ & _ & _ & H).
    destruct H as (H & _); [discriminate|]. exact H.
Defined.

Lemma initialize_full env fuel w :
  PREWARMED_POOL_SIZE <= length (prewarmed_pool w) ->
  initialize_prewarmed_pool env (S fuel) w = Some (Return tt, w).
Proof.
  intros Hfull. simpl.
  destruct (Nat.ltb_spec (length (prewarmed_pool w)) PREWARMED_POOL_SIZE); [lia|reflexivity].
Qed.

(** The pool after [initialize_prewarmed_pool] from [w], when nothing raises. *)
Lemma initialize_faultless env : faultless env ->
  ∀ missing w,
    length (prewarmed_pool w) + missing = PREWARMED_POOL_SIZE ->
    ∀ fuel, missing < fuel ->
      ∃ w', initialize_prewarmed_pool env fuel w = Some (Return tt, w') ∧
            prewarmed_pool w' = prewarmed_pool w ++ seq (next_cid w) missing ∧
            sessions w' = sessions w.
Proof.
  intros Hok. induction missing as [|missing IH]; intros w Hlen fuel Hfuel.
  - destruct fuel as [|fuel]; [lia|]. exists w.
    rewrite initialize_full by lia. simpl. now rewrite app_nil_r.
  - destruct fuel as [|fuel]; [lia|]. simpl initialize_prewarmed_pool.
    destruct (Nat.ltb_spec (length (prewarmed_pool w)) PREWARMED_POOL_SIZE); [|lia].
    assert (Hp : post (create_prewarmed_container env) w
                   (λ o w1, o = Return tt ∧ sessions w1 = sessions w ∧
                            prewarmed_pool w1 = prewarmed_pool w ++ [next_cid w] ∧
                            next_cid w1 = S (next_cid w))).
    { exec; simpl; try (match goal with
                        | H : r_error (env ?k) = Some _ |- _ =>
                            rewrite (Hok k) in H; discriminate H
                        end); repeat split. }
    unfold post in Hp. destruct (create_prewarmed_container env w) as [o w1].
    simpl in Hp. destruct Hp as (-> & Hs & Hpool & Hnext).
    destruct (IH w1) with (fuel := fuel) as (w' & Hrun & Hpool' & Hs'); [|lia|].
    { rewrite Hpool, length_app. simpl. lia. }
    exists w'. split; [exact Hrun|]. split; [|congruence].
    rewrite Hpool', Hpool, Hnext, <- app_assoc. reflexivity.
Qed.

(** X6: when no external call raises, [initialize_prewarmed_pool] started
    with a pool below its target terminates -- one evaluation of the loop
    condition more than there are containers missing suffices -- and returns
    with the pool filled up to exactly [PREWARMED_POOL_SIZE] by appending
    fresh containers, the registry untouched; started with a pool at or above
    the target it returns at once and changes nothing. *)
Theorem initialize_fills_pool env w :
  faultless env ->
  (length (prewarmed_pool w) < PREWARMED_POOL_SIZE ->
   ∀ fuel, PREWARMED_POOL_SIZE - length (prewarmed_pool w) < fuel ->
     ∃ w', initialize_prewarmed_pool env fuel w = Some (Return tt, w') ∧
           length (prewarmed_pool w') = PREWARMED_POOL_SIZE ∧
           prewarmed_pool w' = prewarmed_pool w
             ++ seq (next_cid w) (PREWARMED_POOL_SIZE - length (prewarmed_pool w)) ∧
           sessions w' = sessions w) ∧
  (PREWARMED_POOL_SIZE <= length (prewarmed_pool w) ->
   ∀ fuel, initialize_prewarmed_pool env (S fuel) w = Some (Return tt, w)).
Proof.
  intros Hok. split.
  - intros Hlt fuel Hfuel.
    destruct (initialize_faultless env Hok
                (PREWARMED_POOL_SIZE - length (prewarmed_pool w)) w) with (fuel := fuel)
      as (w' & Hrun & Hpool & Hs); [lia | exact Hfuel |].
    exists w'. split; [exact Hrun|]. split; [|split; [exact Hpool | exact Hs]].
    rewrite Hpool, length_app, length_seq. lia.
  - intros Hfull fuel. now apply initialize_full.
Qed.

Lemma initialize_fills_pool_witness :
  ∃ w', initialize_prewarmed_pool quiet 2 initial_world = Some (Return tt, w') ∧
        length (prewarmed_pool w') = PREWARMED_POOL_SIZE ∧
        prewarmed_pool w' = prewarmed_pool initial_world
          ++ seq (next_cid initial_world)
               (PREWARMED_POOL_SIZE - length (prewarmed_pool initial_world)) ∧
        sessions w' = sessions initial_world.
Proof.
  destruct (initialize_fills_pool quiet initial_world) as [H _].
  - intros k. reflexivity.
  - apply H; vm_compute; lia.
Defined.

(** X7: when every attempt to create a container raises,
    [initialize_prewarmed_pool] started with a pool below its target never
    returns, however long it is left running: the loop swallows each error
    and tries again. *)
Theorem initialize_spins_when_unreachable env :
  (∀ k, r_error (env k) ≠ None) ->
  ∀ fuel w,
    length (prewarmed_pool w) < PREWARMED_POOL_SIZE ->
    initialize_prewarmed_pool env fuel w = None.
Proof.
  intros Hfail. induction fuel as [|fuel IH]; intros w Hlt; [reflexivity|].
  simpl. destruct (Nat.ltb_spec (length (prewarmed_pool w)) PREWARMED_POOL_SIZE); [|lia].
  assert (Hp : post (create_prewarmed_container env) w
                 (λ o w1, o = Return tt ∧ prewarmed_pool w1 = prewarmed_pool w)).
  { exec; simpl; try (split; reflexivity).
    match goal with H : r_error (env ?k) = None |- _ => destruct (Hfail k H) end. }
  unfold post in Hp. destruct (create_prewarmed_container env w) as [o w1].
  simpl in Hp. destruct Hp as (-> & Hpool). apply IH. now rewrite Hpool.
Qed.

Lemma initialize_spins_when_unreachable_witness :
  initialize_prewarmed_pool unreachable 1000 initial_world = None.
Proof.
  apply (initialize_spins_when_unreachable unreachable).
  - intros k. discriminate.
  - vm_compute. lia.
Defined.

(** ** The sweeper and the pool *)

Lemma expire_sessions_frame env snapshot : ∀ w,
  post (expire_sessions env snapshot) w
    (λ o w', o = Return tt ∧ prewarmed_pool w' = prewarmed_pool w ∧
             next_cid w' = next_cid w ∧ files w' = files w).
Proof.
  induction snapshot as [|[session_id session] rest IH]; intros w.
  - apply post_ret. auto.
  - simpl expire_sessions.
    assert (Hrest : ∀ w1,
      prewarmed_pool w1 = prewarmed_pool w -> next_cid w1 = next_cid w ->
      files w1 = files w ->
      post (expire_sessions env rest) w1
        (λ o w', o = Return tt ∧ prewarmed_pool w' = prewarmed_pool w ∧
                 next_cid w' = next_cid w ∧ files w' = files w)).
    { intros w1 Hp Hn Hf. eapply post_weaken; [apply IH|]. simpl.
      intros o w' (? & ? & ? & ?). repeat split; congruence. }
    exec; apply Hrest; reflexivity.
Qed.

Lemma sweep_pool env w :
  post (sweep env) w
    (λ _ w',
       (PREWARMED_POOL_SIZE <= length (prewarmed_pool w) ->
        prewarmed_pool w' = prewarmed_pool w) ∧
       (length (prewarmed_pool w) < PREWARMED_POOL_SIZE ->
        prewarmed_pool w' = prewarmed_pool w ∨
        prewarmed_pool w' = prewarmed_pool w ++ [next_cid w] ∧
        daemon w' !! next_cid w = Some prewarmed_spec) ∧
       (faultless env -> length (prewarmed_pool w) < PREWARMED_POOL_SIZE ->
        prewarmed_pool w' = prewarmed_pool w ++ [next_cid w] ∧
        daemon w' !! next_cid w = Some prewarmed_spec)).
Proof.
  unfold sweep. exec_step. exec_step. exec_step.
  eapply post_weaken; [apply expire_sessions_frame|]. simpl.
  intros o w1 (-> & Hp & Hn & _).
  assert (Hgoal : post
            (let* w' := get_world in
             perform (if Nat.ltb (length (prewarmed_pool w')) PREWARMED_POOL_SIZE
                      then create_prewarmed_container env else ret tt)
             then time_sleep SWEEP_SLEEP) w1
            (λ _ w',
               (PREWARMED_POOL_SIZE <= length (prewarmed_pool w) ->
                prewarmed_pool w' = prewarmed_pool w) ∧
               (length (prewarmed_pool w) < PREWARMED_POOL_SIZE ->
                prewarmed_pool w' = prewarmed_pool w ∨
                prewarmed_pool w' = prewarmed_pool w ++ [next_cid w] ∧
                daemon w' !! next_cid w = Some prewarmed_spec) ∧
               (faultless env -> length (prewarmed_pool w) < PREWARMED_POOL_SIZE ->
                prewarmed_pool w' = prewarmed_pool w ++ [next_cid w] ∧
                daemon w' !! next_cid w = Some prewarmed_spec))).
  { exec_step. exec_step. exec_step. rewrite Hp.
    destruct (Nat.ltb_spec (length (prewarmed_pool w)) PREWARMED_POOL_SIZE) as [Hlt|Hge];
      exec; simpl; rewrite ?Hp, ?Hn;
      (split; [intros ?; first [lia | reflexivity]|]); split; intros; try lia;
      try (match goal with
           | Hok : faultless env, H : r_error (env ?k) = Some _ |- _ =>
               rewrite (Hok k) in H; discriminate H
           end);
      try (split; [reflexivity | apply lookup_insert_eq]);
      try (left; reflexivity);
      try (right; split; [reflexivity | apply lookup_insert_eq]). }
  exact Hgoal.
Qed.

(** X8: a sweeper pass adds at most one container to the pool and only when
    the pool is below its target.  With the pool at or above
    [PREWARMED_POOL_SIZE] the pass leaves it as it is; with the pool below
    the target and nothing raising, the pass appends one fresh container,
    held by the daemon as provisioned. *)
Theorem sweep_replenishes_pool env w :
  (PREWARMED_POOL_SIZE <= length (prewarmed_pool w) ->
   prewarmed_pool (snd (sweep env w)) = prewarmed_pool w) ∧
  (length (prewarmed_pool w) < PREWARMED_POOL_SIZE ->
   length (prewarmed_pool (snd (sweep env w))) <= S (length (prewarmed_pool w)) ∧
   (faultless env ->
    prewarmed_pool (snd (sweep env w)) = prewarmed_pool w ++ [next_cid w] ∧
    idle (snd (sweep env w)) (next_cid w))).
Proof.
  destruct (sweep_pool env w) as (Hfull & Hsome & Hok).
  split; [exact Hfull|]. intros Hlt. split.
  - destruct (Hsome Hlt) as [-> | [-> _]]; [lia|]. rewrite length_app. simpl. lia.
  - intros Hf. exact (Hok Hf Hlt).
Qed.

Lemma sweep_replenishes_pool_witness :
  prewarmed_pool (snd (sweep quiet one_pooled)) = prewarmed_pool one_pooled ∧
  prewarmed_pool (snd (sweep quiet one_session)) = [1].
Proof.
  split.
  - apply (sweep_replenishes_pool quiet one_pooled). vm_compute. lia.
  - destruct (sweep_replenishes_pool quiet one_session) as [_ H].
    destruct H as [_ H]; [vm_compute; lia|].
    destruct H as [H _]; [intros k; reflexivity|]. exact H.
Defined.

Lemma expire_sessions_keeps env snapshot session_id session :
  monotone env ->
  ∀ w,
    sessions w !! session_id = Some session ->
    (∀ session', (session_id, session') ∈ snapshot -> session' = session) ->
    post (expire_sessions env snapshot) w
      (λ o w', o = Return tt ∧ (clock w <= clock w')%Q ∧
               (¬ expired (clock w') session -> sessions w' !! session_id = Some session)).
Proof.
  intros Hmono.
  induction snapshot as [|[k s0] rest IH]; intros w Hreg Hsnap.
  - apply post_ret. split; [reflexivity|]. split; [lra | auto].
  - simpl expire_sessions.
    assert (Hkeep : ∀ w1, (clock w <= clock w1)%Q ->
              sessions w1 !! session_id = Some session ->
              post (expire_sessions env rest) w1
                (λ o w', o = Return tt ∧ (clock w <= clock w')%Q ∧
                         (¬ expired (clock w') session ->
                          sessions w' !! session_id = Some session))).
    { intros w1 Hle Hreg1. eapply post_weaken.
      - apply IH; [exact Hreg1|]. intros s' Hin. apply Hsnap. now apply list_elem_of_further.
      - simpl. intros o w' (Ho & Hle' & Hk). split; [exact Ho|]. split; [lra | exact Hk]. }
    assert (Hgone : ∀ w1, (clock w <= clock w1)%Q -> expired (clock w) session ->
              post (expire_sessions env rest) w1
                (λ o w', o = Return tt ∧ (clock w <= clock w')%Q ∧
                         (¬ expired (clock w') session ->
                          sessions w' !! session_id = Some session))).
    { intros w1 Hle Hexp. eapply post_weaken; [apply expire_sessions_spec|]. simpl.
      intros o w' (Ho & _ & Hle' & _). specialize (Hle' Hmono).
      split; [exact Ho|]. split; [lra|]. intros Hnot. exfalso. apply Hnot. unfold expired in *. lra. }
    destruct (decide (k = session_id)) as [->|Hne].
    + assert (s0 = session) as -> by (apply Hsnap; apply list_elem_of_here).
      exec; first [ apply Hgone; [simpl; durations env Hmono; lra | assumption]
                  | apply Hkeep; [simpl; lra | assumption] ].
    + exec; apply Hkeep; simpl; try (durations env Hmono; lra);
        try (rewrite lookup_delete_ne by exact Hne); assumption.
Qed.

(** X9: a sweeper pass keeps the records that are within the budget.  If the
    clock never runs backwards and a registered session is not past the
    budget when the pass has finished its work, just before it goes to sleep,
    the record is still in the registry after the pass, unchanged; the test
    is strict, so a session whose age equals the budget is kept. *)
Theorem sweep_keeps_fresh_sessions env w session_id session :
  monotone env ->
  sessions w !! session_id = Some session ->
  ¬ expired (clock (snd (sweep env w)) - SWEEP_SLEEP) session ->
  sessions (snd (sweep env w)) !! session_id = Some session.
Proof.
  intros Hmono Hreg.
  change (post (sweep env) w
            (λ _ w', ¬ expired (clock w' - SWEEP_SLEEP) session ->
                     sessions w' !! session_id = Some session)).
  unfold sweep. exec_step. exec_step. exec_step.
  eapply post_weaken.
  - apply (expire_sessions_keeps env _ session_id session Hmono w Hreg).
    intros s' Hin. apply elem_of_map_to_list in Hin. congruence.
  - simpl. intros o w1 (-> & _ & Hk).
    assert (Hend : ∀ w2, sessions w2 = sessions w1 -> (clock w1 <= clock w2)%Q ->
              post (time_sleep SWEEP_SLEEP) w2
                (λ _ w', ¬ expired (clock w' - SWEEP_SLEEP) session ->
                         sessions w' !! session_id = Some session)).
    { intros w2 Hs Hle. unfold time_sleep. apply post_modify. simpl.
      intros Hnot. rewrite Hs. apply Hk. intros Hexp. apply Hnot.
      unfold expired, SWEEP_SLEEP in *. lra. }
    exec_step. exec_step. exec_step.
    destruct (Nat.ltb (length (prewarmed_pool w1)) PREWARMED_POOL_SIZE).
    + eapply post_weaken; [apply create_prewarmed_container_spec|]. simpl.
      intros o w2 (-> & Hs & Hle & _). apply Hend; auto.
    + apply post_ret. apply Hend; [reflexivity | lra].
Qed.

Lemma sweep_keeps_fresh_sessions_witness :
  sessions (snd (sweep quiet at_the_budget)) !! "s1"
  = Some {| container := 0; start_time := 0 |}.
Proof.
  apply (sweep_keeps_fresh_sessions quiet at_the_budget "s1").
  - intros k. vm_compute. discriminate.
  - vm_compute. reflexivity.
  - unfold expired. vm_compute. discriminate.
Defined.

(** ** Teardown *)

(** X10: what [cleanup_session] does to the container of a registered
    session.  If [stop] raises, [remove] is not attempted: one external call
    is made and the daemon holds the container as before, although the record
    is gone.  If [stop] succeeds and [remove] raises, the container stays in
    the daemon, stopped.  If both succeed, the container is gone from the
    daemon and the reply is [CleanedUp]. *)
Theorem cleanup_teardown_effect env session_id session w :
  sessions w !! session_id = Some session ->
  (r_error (env (events w)) ≠ None ->
   daemon (snd (cleanup_session env session_id w)) = daemon w ∧
   events (snd (cleanup_session env session_id w)) = S (events w)) ∧
  (r_error (env (events w)) = None -> r_error (env (S (events w))) ≠ None ->
   daemon (snd (cleanup_session env session_id w))
     = alter with_stopped (container session) (daemon w)) ∧
  (r_error (env (events w)) = None -> r_error (env (S (events w))) = None ->
   fst (cleanup_session env session_id w) = Return CleanedUp ∧
   daemon (snd (cleanup_session env session_id w))
     = delete (container session) (alter with_stopped (container session) (daemon w))).
Proof.
  intros Hreg.
  change (post (cleanup_session env session_id) w
            (λ o w',
               (r_error (env (events w)) ≠ None ->
                daemon w' = daemon w ∧ events w' = S (events w)) ∧
               (r_error (env (events w)) = None -> r_error (env (S (events w))) ≠ None ->
                daemon w' = alter with_stopped (container session) (daemon w)) ∧
               (r_error (env (events w)) = None -> r_error (env (S (events w))) = None ->
                o = Return CleanedUp ∧
                daemon w' = delete (container session)
                              (alter with_stopped (container session) (daemon w))))).
  unfold cleanup_session. exec_step. exec_step. rewrite Hreg. cbv beta iota.
  exec; simpl in *; repeat split; intros; congruence.
Qed.

Lemma cleanup_teardown_effect_witness :
  daemon (snd (cleanup_session unreachable "s1" one_session)) = daemon one_session ∧
  daemon (snd (cleanup_session quiet "s1" one_session)) !! 0 = None.
Proof.
  split.
  - destruct (cleanup_teardown_effect unreachable "s1"
                {| container := 0; start_time := 0 |} one_session) as (H & _ & _);
      [vm_compute; reflexivity|].
    destruct H as [H _]; [discriminate|]. exact H.
  - destruct (cleanup_teardown_effect quiet "s1"
                {| container := 0; start_time := 0 |} one_session) as (_ & _ & H);
      [vm_compute; reflexivity|].
    destruct H as [_ H]; [reflexivity | reflexivity |]. rewrite H.
    apply lookup_delete_eq.
Defined.

Lemma set_pool_id f w : f (prewarmed_pool w) = prewarmed_pool w -> set_pool f w = w.
Proof. intros H. destruct w. unfold set_pool. simpl in *. now rewrite H. Qed.

Lemma drain_all_fail env pool :
  (∀ k, r_error (env k) ≠ None) ->
  ∀ w, post (drain env pool) w
         (λ o w', o = Return tt ∧ daemon w' = daemon w ∧ sessions w' = sessions w ∧
                  events w' = events w + length pool).
Proof.
  intros Hfail. induction pool as [|c rest IH]; intros w.
  - apply post_ret. simpl. repeat split. lia.
  - simpl drain. exec;
      try match goal with H : r_error (env ?k) = None |- _ => destruct (Hfail k H) end.
    eapply post_weaken; [apply IH|]. simpl.
    intros o w' (-> & Hd & Hs & He). repeat split; try assumption. lia.
Qed.

(** X11: one failing teardown does not stop the drain.  Even when every
    [stop] raises, [shutdown_cleanup] returns normally, has tried each pooled
    container once (one external call per container), and has emptied the
    pool; the containers are then all still in the daemon, known to nobody. *)
Theorem shutdown_survives_failures env w :
  (∀ k, r_error (env k) ≠ None) ->
  fst (shutdown_cleanup env w) = Return tt ∧
  prewarmed_pool (snd (shutdown_cleanup env w)) = [] ∧
  daemon (snd (shutdown_cleanup env w)) = daemon w ∧
  events (snd (shutdown_cleanup env w)) = events w + length (prewarmed_pool w).
Proof.
  intros Hfail.
  change (post (shutdown_cleanup env) w
            (λ o w', o = Return tt ∧ prewarmed_pool w' = [] ∧ daemon w' = daemon w ∧
                     events w' = events w + length (prewarmed_pool w))).
  unfold shutdown_cleanup. exec_step. exec_step. exec_step.
  eapply post_weaken; [apply (drain_all_fail env _ Hfail)|]. simpl.
  intros o w' (-> & Hd & _ & He). exec_step. simpl. auto.
Qed.

Lemma shutdown_survives_failures_witness :
  fst (shutdown_cleanup unreachable session_and_pool) = Return tt ∧
  prewarmed_pool (snd (shutdown_cleanup unreachable session_and_pool)) = [] ∧
  daemon (snd (shutdown_cleanup unreachable session_and_pool)) = daemon session_and_pool ∧
  events (snd (shutdown_cleanup unreachable session_and_pool))
    = events session_and_pool + length (prewarmed_pool session_and_pool).
Proof.
  apply (shutdown_survives_failures unreachable session_and_pool).
  intros k. discriminate.
Defined.

Lemma shutdown_cleanup_empties env w :
  prewarmed_pool (snd (shutdown_cleanup env w)) = [].
Proof.
  change (post (shutdown_cleanup env) w (λ _ w', prewarmed_pool w' = [])).
  unfold shutdown_cleanup. exec_step. exec_step. exec_step.
  eapply post_weaken; [apply drain_spec|]. simpl.
  intros o w' (-> & _). exec_step. reflexivity.
Qed.

(** X12: [shutdown_cleanup] can run again without harm -- it is registered
    for [atexit] and for two signals.  Whatever the first run met, a second
    run makes no external call and leaves the world exactly as the first run
    left it. *)
Theorem shutdown_twice env env' w :
  shutdown_cleanup env' (snd (shutdown_cleanup env w))
  = (Return tt, snd (shutdown_cleanup env w)).
Proof.
  pose proof (shutdown_cleanup_empties env w) as Hempty.
  set (w1 := snd (shutdown_cleanup env w)) in *.
  cbv [shutdown_cleanup and_then get_world modify]. rewrite Hempty. simpl.
  f_equal. apply set_pool_id. now rewrite Hempty.
Qed.

(** ** Where an upload goes *)

Lemma has_slash_ends a x : ends_with_slash a = true -> has_slash (a +:+ x) = true.
Proof.
  induction a as [|c [|d r] IH]; intros H; [discriminate| |].
  - simpl in H. change (has_slash (String c x) = true).
    unfold has_slash; fold has_slash. now rewrite H.
  - change (has_slash (String c (String d r +:+ x)) = true).
    unfold has_slash; fold has_slash.
    destruct (Ascii.eqb c slash); [reflexivity|]. apply IH. exact H.
Qed.

Lemma has_slash_app_slash a x : has_slash (a +:+ "/" +:+ x) = true.
Proof.
  induction a as [|c a IH]; [reflexivity|].
  change (has_slash (String c (a +:+ "/" +:+ x)) = true).
  unfold has_slash; fold has_slash.
  destruct (Ascii.eqb c slash); [reflexivity | exact IH].
Qed.

Lemma basename_cons c rest :
  basename (String c rest)
  = if has_slash rest then basename rest
    else if Ascii.eqb c slash then rest else String c rest.
Proof. reflexivity. Qed.

Lemma has_slash_cons c rest :
  has_slash (String c rest) = if Ascii.eqb c slash then true else has_slash rest.
Proof. reflexivity. Qed.

Lemma basename_plain name : has_slash name = false -> basename name = name.
Proof.
  destruct name as [|c rest]; [reflexivity|].
  rewrite has_slash_cons, basename_cons.
  destruct (Ascii.eqb c slash); [discriminate|]. now intros ->.
Qed.

Lemma basename_after_slash a name :
  has_slash name = false -> basename (a +:+ "/" +:+ name) = name.
Proof.
  intros Hname. induction a as [|c a IH].
  - change (basename (String slash name) = name).
    rewrite basename_cons, Hname. reflexivity.
  - change (basename (String c (a +:+ "/" +:+ name)) = name).
    rewrite basename_cons, has_slash_app_slash. exact IH.
Qed.

Lemma basename_after_dir a name :
  ends_with_slash a = true -> has_slash name = false -> basename (a +:+ name) = name.
Proof.
  intros Ha Hname. induction a as [|c [|d r] IH]; [discriminate| |].
  - change (basename (String c name) = name).
    rewrite basename_cons, Hname. simpl in Ha. now rewrite Ha.
  - change (basename (String c (String d r +:+ name)) = name).
    rewrite basename_cons, (has_slash_ends (String d r) name Ha). apply IH. exact Ha.
Qed.

(** X13: for an upload whose name contains no slash, the name of the member
    that [_make_tar] writes -- the basename of the path the upload was saved
    at -- is the name of the upload, whatever the session directory is. *)
Theorem basename_of_saved_path dir name :
  has_slash name = false ->
  basename (os_path_join dir name) = name.
Proof.
  intros Hname. unfold os_path_join.
  assert (starts_with_slash name = false) as ->.
  { destruct name as [|c rest]; [reflexivity|]. simpl in *.
    destruct (Ascii.eqb c slash); [discriminate | reflexivity]. }
  destruct (String.eqb_spec dir "") as [->|Hne]; simpl.
  - now apply basename_plain.
  - destruct (ends_with_slash dir) eqn:Hd.
    + now apply basename_after_dir.
    + now apply basename_after_slash.
Qed.

Lemma basename_of_saved_path_witness :
  basename (os_path_join "/tmp/s1" "main.py") = "main.py".
Proof. apply (basename_of_saved_path "/tmp/s1" "main.py"). reflexivity. Defined.

(** X14: once the session directory is made and the save succeeds, the
    content of the upload is on disk at [os.path.join(session_dir, filename)]
    when [execute_code] ends, however the rest of the call goes.  The name is
    used as the client sent it: for a name that starts with a slash that path
    is the name itself, outside the session directory. *)
Theorem upload_saved_where_named env req w code_file :
  files_get "file" (request_files req) = Some code_file ->
  r_error (env (S (events w))) = None ->
  r_error (env (S (S (events w)))) = None ->
  files (snd (execute_code env req w))
    !! os_path_join ("/tmp/" +:+ r_uuid (env (events w))) (filename code_file)
    = Some (content code_file) ∧
  (starts_with_slash (filename code_file) = true ->
   files (snd (execute_code env req w)) !! filename code_file = Some (content code_file)).
Proof.
  intros Hf H1 H2.
  assert (Hsaved : files (snd (execute_code env req w))
            !! os_path_join ("/tmp/" +:+ r_uuid (env (events w))) (filename code_file)
            = Some (content code_file)).
  { change (post (execute_code env req) w
              (λ _ w', files w' !! os_path_join ("/tmp/" +:+ r_uuid (env (events w)))
                                     (filename code_file)
                       = Some (content code_file))).
    unfold execute_code. rewrite Hf.
    exec; simpl in *; try congruence; apply lookup_insert_eq. }
  split; [exact Hsaved|]. intros Habs.
  unfold os_path_join in Hsaved. now rewrite Habs in Hsaved.
Qed.

Lemma upload_saved_where_named_witness :
  files (snd (execute_code quiet (upload "/etc/cron.d/job" "x") initial_world))
    !! "/etc/cron.d/job" = Some "x".
Proof.
  apply (upload_saved_where_named quiet (upload "/etc/cron.d/job" "x") initial_world
           {| filename := "/etc/cron.d/job"; content := "x" |}); reflexivity.
Defined.

Lemma drain_files env pool : ∀ w,
  post (drain env pool) w (λ _ w', files w' = files w).
Proof.
  induction pool as [|c rest IH]; intros w; [apply post_ret; reflexivity|].
  simpl drain. exec; (eapply post_weaken; [apply IH|]); simpl; auto.
Qed.

Lemma sweep_files env w : files (snd (sweep env w)) = files w.
Proof.
  change (post (sweep env) w (λ _ w', files w' = files w)).
  unfold sweep. exec_step. exec_step. exec_step.
  eapply post_weaken; [apply expire_sessions_frame|]. simpl.
  intros o w1 (-> & _ & _ & Hf). exec; simpl; exact Hf.
Qed.

Lemma execute_code_files env req w :
  post (execute_code env req) w
    (λ _ w', ∀ p, is_Some (files w !! p) -> is_Some (files w' !! p)).
Proof.
  unfold execute_code.
  destruct (files_get "file" (request_files req)); exec; simpl; intros p Hp;
    try exact Hp; apply lookup_insert_is_Some'; now right.
Qed.

(** X15: nothing the program does deletes an upload.  After any step -- a
    request, a sweeper pass, provisioning, shutdown -- every path that held a
    file still holds one; and every step other than a dispatch leaves the
    files exactly as they were, so neither cleanup nor expiry nor shutdown
    removes a session directory. *)
Theorem uploads_never_deleted env a w :
  (∀ p, is_Some (files w !! p) -> is_Some (files (apply_action env a w) !! p)) ∧
  ((∀ req, a ≠ Execute req) -> files (apply_action env a w) = files w).
Proof.
  assert (Hsame : (∀ req, a ≠ Execute req) -> files (apply_action env a w) = files w).
  { intros Hne. destruct a as [req|session_id|session_id| | | |d]; simpl.
    - destruct (Hne req eq_refl).
    - apply (get_result_frame env session_id w).
    - change (post (cleanup_session env session_id) w (λ _ w', files w' = files w)).
      unfold cleanup_session. exec; reflexivity.
    - apply sweep_files.
    - change (post (create_prewarmed_container env) w (λ _ w', files w' = files w)).
      exec; reflexivity.
    - change (post (shutdown_cleanup env) w (λ _ w', files w' = files w)).
      unfold shutdown_cleanup. exec_step. exec_step. exec_step.
      eapply post_weaken; [apply drain_files|]. simpl.
      intros o w' Hf. destruct o; [exec_step|]; exact Hf.
    - reflexivity. }
  split; [|exact Hsame].
  intros p Hp. destruct a as [req| | | | | |];
    try (rewrite Hsame by discriminate; exact Hp).
  apply (execute_code_files env req w p Hp).
Qed.

(** ** The size of the pool *)

Lemma length_removelast_le {X} (l : list X) : length (removelast l) <= length l.
Proof.
  induction l as [|x [|y l] IH]; simpl in *; lia.
Qed.

Lemma cleanup_session_pool env session_id w :
  prewarmed_pool (snd (cleanup_session env session_id w)) = prewarmed_pool w.
Proof.
  change (post (cleanup_session env session_id) w
            (λ _ w', prewarmed_pool w' = prewarmed_pool w)).
  unfold cleanup_session. exec; reflexivity.
Qed.

Lemma initialize_pool_bound env fuel : ∀ w o w',
  initialize_prewarmed_pool env fuel w = Some (o, w') ->
  length (prewarmed_pool w) <= PREWARMED_POOL_SIZE ->
  length (prewarmed_pool w') <= PREWARMED_POOL_SIZE.
Proof.
  induction fuel as [|fuel IH]; intros w o w' Hrun Hle; [discriminate|].
  simpl in Hrun.
  destruct (Nat.ltb_spec (length (prewarmed_pool w)) PREWARMED_POOL_SIZE) as [Hlt|Hge].
  - assert (Hp : post (create_prewarmed_container env) w
                   (λ _ w1, length (prewarmed_pool w1) <= PREWARMED_POOL_SIZE)).
    { exec; simpl; rewrite ?length_app; simpl; lia. }
    unfold post in Hp. destruct (create_prewarmed_container env w) as [[[]|e] w1].
    + exact (IH w1 o w' Hrun Hp).
    + injection Hrun as _ <-. exact Hp.
  - injection Hrun as _ <-. exact Hle.
Qed.

(** X16: in every world the program reaches by serving requests, sweeping,
    initialising the pool and shutting down, the pool holds at most
    [PREWARMED_POOL_SIZE] containers: a container is provisioned only after
    the pool was found below the target. *)
Theorem pool_never_exceeds_target env w :
  runs env w -> length (prewarmed_pool w) <= PREWARMED_POOL_SIZE.
Proof.
  induction 1 as [|a w Hguard _ IH|fuel w o w' _ IH Hinit].
  - simpl. unfold PREWARMED_POOL_SIZE. lia.
  - destruct a as [req|session_id|session_id| | | |d]; simpl.
    + destruct (execute_code_outcome env req w) as (_ & _ & [-> | ->]); [exact IH|].
      pose proof (length_removelast_le (prewarmed_pool w)). lia.
    + destruct (get_result_frame env session_id w) as (_ & -> & _). exact IH.
    + rewrite cleanup_session_pool. exact IH.
    + destruct (sweep_pool env w) as (Hfull & Hsome & _).
      destruct (Nat.lt_ge_cases (length (prewarmed_pool w)) PREWARMED_POOL_SIZE)
        as [Hlt|Hge].
      * destruct (Hsome Hlt) as [-> | [-> _]]; [exact IH|].
        rewrite length_app. simpl. lia.
      * rewrite (Hfull Hge). exact IH.
    + destruct (Hguard eq_refl).
    + rewrite shutdown_cleanup_empties. simpl. lia.
    + exact IH.
  - exact (initialize_pool_bound env fuel w o w' Hinit IH).
Qed.

Lemma pool_never_exceeds_target_witness :
  length (prewarmed_pool (snd (sweep quiet one_session))) <= PREWARMED_POOL_SIZE.
Proof.
  apply (pool_never_exceeds_target quiet).
  apply (runs_action quiet Sweep one_session); [discriminate|].
  apply (runs_action quiet (Execute (upload "main.py" "print('hi')")) initial_world);
    [discriminate|].
  apply runs_initial.
Defined.

(** X17: the sweeper only ever removes records.  However many passes it
    makes and whatever the runtime answers, every pass returns normally, and
    every record in the registry afterwards was there before the first pass
    with the same binding and the same creation time. *)
Theorem sweeper_only_removes env n : ∀ w,
  fst (cleanup_expired_sessions env n w) = Return tt ∧
  ∀ session_id session,
    sessions (snd (cleanup_expired_sessions env n w)) !! session_id = Some session ->
    sessions w !! session_id = Some session.
Proof.
  induction n as [|n IH]; intros w.
  - split; [reflexivity|]. auto.
  - split; [apply cleanup_expired_sessions_returns|].
    intros session_id session. rewrite cleanup_expired_sessions_S. intros Hs.
    apply (IH (snd (sweep env w))) in Hs.
    destruct (sweep_spec env w) as (_ & Hrem & _).
    destruct (Hrem session_id) as [Hnone|Hsame]; congruence.
Qed.

(** ** The pool and the registry under interleaving *)

Section Fine.

Implicit Types (w : world) (h p r d : cid -> nat) (s : nat) (c : cid).





End Fine.





























(** ** A thread left alone runs its handler

    When nothing interferes, the statements of a thread add up to the
    function it runs: the replies and the worlds are those of the handlers
    above. *)

Ltac both_sides :=
  repeat (cbn [events answered set_files set_pool set_daemon set_attrs set_next_cid
               set_sessions prewarmed_pool files sessions fst snd];
          match goal with
          | |- context [match r_error ?x with _ => _ end] => destruct (r_error x) eqn:?
          | |- context [match files_get ?a ?b with _ => _ end] => destruct (files_get a b) eqn:?
          | |- context [match prewarmed_pool ?w with _ => _ end] => destruct (prewarmed_pool w) eqn:?
          | |- context [match last ?l with _ => _ end] => destruct (last l) eqn:?
          | |- context [match ?m !! ?k with _ => _ end] => destruct (m !! k) eqn:?
          | |- context [if ?b then _ else _] => destruct b eqn:?
          end).

Ltac unfold_both :=
  cbv [steps step proceed after execute_code get_result cleanup_session
       create_prewarmed_container uuid4 os_makedirs save _make_tar put_archive
       exec_run containers_run reload status logs stop remove pool_pop sessions_pop
       external and_then try_except get_world modify ret time_time].

Lemma execute_code_alone env req w :
  steps env 10 (Execute_start req) w
  = (Replied (fst (execute_code env req w)), snd (execute_code env req w)).
Proof. unfold_both. both_sides; first [reflexivity | congruence | simpl; congruence]. Qed.

Lemma get_result_alone env session_id w :
  steps env 4 (Result_start session_id) w
  = (Replied (fst (get_result env session_id w)), snd (get_result env session_id w)).
Proof. unfold_both. both_sides; first [reflexivity | congruence | simpl; congruence]. Qed.

Lemma cleanup_session_alone env session_id w :
  steps env 3 (Cleanup_start session_id) w
  = (Replied (fst (cleanup_session env session_id w)),
     snd (cleanup_session env session_id w)).
Proof. unfold_both. both_sides; first [reflexivity | congruence | simpl; congruence]. Qed.

Lemma steps_add env n m : ∀ t w,
  steps env (n + m) t w
  = match steps env n t w with
    | (Next t', w') => steps env m t' w'
    | (r, w') => (r, w')
    end.
Proof.
  induction n as [|n IH]; intros t w; [reflexivity|].
  simpl. destruct (step env t w) as [[t'|o|] w']; [apply IH | reflexivity | reflexivity].
Qed.

Lemma create_prewarmed_container_alone env who w :
  ∃ n, steps env n (Create_run who) w
       = (after who, snd (create_prewarmed_container env w)).
Proof.
  destruct (r_error (env (events w))) as [e|] eqn:Hcall.
  - exists 1. unfold_both. rewrite Hcall. destruct who; reflexivity.
  - exists 2. unfold_both. rewrite Hcall. destruct who; reflexivity.
Qed.

Ltac advance :=
  cbn [steps];
  cbv [step proceed after stop remove containers_run sessions_pop external and_then
       get_world modify ret];
  cbn [events answered set_daemon set_sessions set_pool set_attrs set_next_cid
       prewarmed_pool].

Lemma expire_sessions_alone env snapshot : ∀ w,
  ∃ n, steps env n (Sweep_check snapshot) w
       = (Next Sweep_len, snd (expire_sessions env snapshot w)).
Proof.
  induction snapshot as [|[session_id session] rest IH]; intros w.
  - exists 1. reflexivity.
  - simpl expire_sessions.
    cbv [and_then try_except time_time stop remove sessions_pop external modify ret].
    destruct (Qlt_le_dec TIMEOUT_SECONDS (clock w - start_time session)) as [Hexp|Hnot] eqn:Hq.
    + destruct (r_error (env (events w))) as [e|] eqn:Hstop.
      * match goal with
        | |- context [expire_sessions env rest ?w1] => destruct (IH w1) as [n Hn]
        end.
        exists (S (S (S n))). advance. rewrite Hq. advance. rewrite Hstop. advance.
        destruct (expire_sessions env rest _) as [o w2]. exact Hn.
      * cbn [events answered set_daemon].
        destruct (r_error (env (S (events w)))) as [e|] eqn:Hremove;
          match goal with
          | |- context [expire_sessions env rest ?w1] => destruct (IH w1) as [n Hn]
          end;
          exists (S (S (S (S n)))); advance; rewrite Hq; advance; rewrite Hstop;
          advance; rewrite Hremove; advance;
          destruct (expire_sessions env rest _) as [o w2]; exact Hn.
    + destruct (IH w) as [n Hn]. exists (S n). advance. rewrite Hq.
      destruct (expire_sessions env rest w) as [o w2]. exact Hn.
Qed.

Lemma expire_sessions_returns env snapshot w :
  fst (expire_sessions env snapshot w) = Return tt.
Proof. exact (proj1 (expire_sessions_spec env snapshot w)). Qed.

Lemma create_prewarmed_container_returns env w :
  fst (create_prewarmed_container env w) = Return tt.
Proof. exact (proj1 (create_prewarmed_container_spec env w)). Qed.

Lemma drain_returns env pool w : fst (drain env pool w) = Return tt.
Proof. exact (proj1 (drain_spec env pool w)). Qed.

Lemma sweep_alone env w :
  ∃ n, steps env n Sweep_snapshot w = (Next Sweep_snapshot, snd (sweep env w)).
Proof.
  destruct (expire_sessions_alone env (map_to_list (sessions w)) w) as [n Hn].
  unfold sweep. cbv [and_then get_world time_sleep].
  destruct (expire_sessions env (map_to_list (sessions w)) w) as [o w1] eqn:Hexpire.
  cbn [snd] in Hn.
  assert (Hreturn : o = Return tt).
  { pose proof (expire_sessions_returns env (map_to_list (sessions w)) w) as H.
    rewrite Hexpire in H. exact H. }
  subst o.
  destruct (Nat.ltb (length (prewarmed_pool w1)) PREWARMED_POOL_SIZE) eqn:Hlen.
  - destruct (create_prewarmed_container_alone env Sweeper w1) as [m Hm].
    pose proof (create_prewarmed_container_returns env w1) as Hcreate.
    destruct (create_prewarmed_container env w1) as [o w2]. cbn [fst snd] in *. subst o.
    exists (1 + (n + (1 + (m + 1)))).
    rewrite steps_add. advance.
    rewrite steps_add, Hn, steps_add. advance. rewrite Hlen.
    rewrite steps_add, Hm. reflexivity.
  - exists (1 + (n + 2)).
    rewrite steps_add. advance.
    rewrite steps_add, Hn. advance. rewrite Hlen. reflexivity.
Qed.

Lemma drain_alone env rest : ∀ i w,
  drop i (prewarmed_pool w) = rest ->
  ∃ n, steps env n (Shutdown_next i) w = (Next Shutdown_clear, snd (drain env rest w)).
Proof.
  induction rest as [|c rest IH]; intros i w Hdrop.
  - assert (Hlook : prewarmed_pool w !! i = None).
    { rewrite <- (Nat.add_0_r i), <- lookup_drop, Hdrop. reflexivity. }
    exists 1. advance. rewrite Hlook. reflexivity.
  - assert (Hlook : prewarmed_pool w !! i = Some c).
    { rewrite <- (Nat.add_0_r i), <- lookup_drop, Hdrop. reflexivity. }
    assert (Hrest : drop (S i) (prewarmed_pool w) = rest).
    { rewrite (drop_S _ _ _ Hlook) in Hdrop. congruence. }
    rewrite drain_cons.
    cbv [and_then try_except stop remove external modify ret]. cbn [snd].
    destruct (r_error (env (events w))) as [e|] eqn:Hstop.
    + match goal with
      | |- context [drain env rest ?w1] => destruct (IH (S i) w1 Hrest) as [n Hn]
      end.
      exists (S (S n)). advance. rewrite Hlook. advance. rewrite Hstop. exact Hn.
    + cbn [events answered set_daemon].
      destruct (r_error (env (S (events w)))) as [e|] eqn:Hremove;
        match goal with
        | |- context [drain env rest ?w1] => destruct (IH (S i) w1 Hrest) as [n Hn]
        end;
        exists (S (S (S n))); advance; rewrite Hlook; advance; rewrite Hstop;
        advance; rewrite Hremove; exact Hn.
Qed.

Lemma shutdown_cleanup_alone env w :
  ∃ n, steps env n (Shutdown_next 0) w = (Ended, snd (shutdown_cleanup env w)).
Proof.
  destruct (drain_alone env (prewarmed_pool w) 0 w eq_refl) as [n Hn].
  exists (n + 1). rewrite steps_add, Hn. advance.
  unfold shutdown_cleanup. cbv [and_then get_world modify].
  pose proof (drain_returns env (prewarmed_pool w) w) as Hreturn.
  destruct (drain env (prewarmed_pool w) w) as [o w1]. cbn [fst snd] in *. subst o.
  reflexivity.
Qed.

Lemma initialize_prewarmed_pool_alone env fuel : ∀ w o w',
  initialize_prewarmed_pool env fuel w = Some (o, w') ->
  ∃ n, steps env n Init_len w = (Ended, w').
Proof.
  induction fuel as [|fuel IH]; intros w o w' Hrun; [discriminate|].
  simpl in Hrun.
  destruct (Nat.ltb (length (prewarmed_pool w)) PREWARMED_POOL_SIZE) eqn:Hlen.
  - destruct (create_prewarmed_container_alone env Initializer w) as [m Hm].
    pose proof (create_prewarmed_container_returns env w) as Hcreate.
    destruct (create_prewarmed_container env w) as [o1 w1]. cbn [fst snd] in *. subst o1.
    destruct (IH _ _ _ Hrun) as [n Hn].
    exists (1 + (m + n)). rewrite steps_add. advance. rewrite Hlen.
    rewrite steps_add, Hm. exact Hn.
  - injection Hrun as _ <-. exists 1. advance. rewrite Hlen. reflexivity.
Qed.

(** ** The interleaved program *)

Lemma steps_interleaved env n : ∀ t w ts,
  interleaved env (w, t :: ts) ->
  interleaved env (snd (steps env n t w),
                   of_result (λ t', [t']) (fst (steps env n t w)) ++ ts).
Proof.
  induction n as [|n IH]; intros t w ts Hcfg; [exact Hcfg|].
  pose proof (interleaved_event env (Run 0) _ Hcfg) as Hrun.
  cbn [occur fst snd lookup list_lookup] in Hrun. cbn [steps].
  destruct (step env t w) as [[t'|o|] w']; [apply IH|..]; exact Hrun.
Qed.


(** Running the handlers one at a time is one of the interleavings. *)
Lemma runs_interleaved env w : runs env w -> ∃ ts, interleaved env (w, ts).
Proof.
  induction 1 as [|a w Ha _ [ts IH]|fuel w o w' _ [ts IH] Hrun].
  - exists []. apply interleaved_initial.
  - destruct a as [req|session_id|session_id| | | |d]; cbn [apply_action].
    + exists ts.
      pose proof (steps_interleaved env 10 (Execute_start req) w ts
                    (interleaved_event env (Arrive (Dispatch req)) (w, ts) IH)) as Hall.
      rewrite execute_code_alone in Hall. exact Hall.
    + exists ts.
      pose proof (steps_interleaved env 4 (Result_start session_id) w ts
                    (interleaved_event env (Arrive (Poll session_id)) (w, ts) IH)) as Hall.
      rewrite get_result_alone in Hall. exact Hall.
    + exists ts.
      pose proof (steps_interleaved env 3 (Cleanup_start session_id) w ts
                    (interleaved_event env (Arrive (Clean session_id)) (w, ts) IH)) as Hall.
      rewrite cleanup_session_alone in Hall. exact Hall.
    + destruct (sweep_alone env w) as [n Hn]. exists (Sweep_snapshot :: ts).
      pose proof (steps_interleaved env n Sweep_snapshot w ts
                    (interleaved_event env (Arrive Sweeping) (w, ts) IH)) as Hall.
      rewrite Hn in Hall. exact Hall.
    + now contradict Ha.
    + destruct (shutdown_cleanup_alone env w) as [n Hn]. exists ts.
      pose proof (steps_interleaved env n (Shutdown_next 0) w ts
                    (interleaved_event env (Arrive Draining) (w, ts) IH)) as Hall.
      rewrite Hn in Hall. exact Hall.
    + exists ts. exact (interleaved_event env (Pass d) _ IH).
  - destruct (initialize_prewarmed_pool_alone env fuel w o w' Hrun) as [n Hn]. exists ts.
    pose proof (steps_interleaved env n Init_len w ts
                    (interleaved_event env (Arrive Initializing) (w, ts) IH)) as Hall.
    rewrite Hn in Hall. exact Hall.
Qed.



Lemma busy_configuration :
  prewarmed_pool (fst (play quiet busy (initial_world, []))) = [1] ∧
  snd (play quiet busy (initial_world, [])) = [Execute_store "s1" 0; Sweep_sleep] ∧
  execs <$> daemon (fst (play quiet busy (initial_world, []))) !! 0
    = Some [("python /code/main.py", true)] ∧
  daemon (fst (play quiet busy (initial_world, []))) !! 1 = Some prewarmed_spec.
Proof. repeat split; vm_compute; reflexivity. Qed.


